(** * Kalm: the Client of the channel bus, and what its specification says

    A shallow embedding of [Client] (the class of the client source file), of
    the adapter registry (src/adapters/index.js) and of the shutdown path of
    the application object, with the statements of the specification proved
    or refuted against it.

    Conventions of the embedding.

    - One [World] holds the client object ([this]), the two module-level
      registries ([adapters.list], [encoders.list]) and the [trace] of what
      the client did to its collaborators: calls into an adapter, signals
      emitted, packets handed to handlers, statistics lines.
    - A method is a function [World -> Outcome A * World]: the JavaScript
      exception is the [Throw] outcome, and the world that comes with it is
      the state the object was left in when the exception escaped.
    - [this.channels] and [adapters.list] are plain objects used as maps.  A
      plain object is its own properties and its prototype.  Reading
      [obj[key]] goes through the prototype chain, [obj.hasOwnProperty] is
      itself such a read, and assigning [obj['__proto__']] replaces the
      prototype instead of adding a property.  [Client.channels] is the map
      of own properties of [this.channels]; [Client.proto] is the Channel
      that an assignment made its prototype, if any; [orphans] are the
      Channels such an assignment displaced, which nothing but their timers
      refers to any more.
    - Lines written through the [debug] module are diagnostics and are left
      out of the trace; the statistics line is kept because [options.stats]
      gates it.
    - Listeners of the lifecycle signals, channel handlers, adapters and
      encoders are collaborators: they are called, they return, and they do
      not call back into the client during the call. *)

From stdpp Require Import gmap strings list fin_maps pretty.
From Stdlib Require Import ZArith Lia.

Local Open Scope Z_scope.

(** ** JavaScript values that reach the client *)

(** The integers a JavaScript number holds exactly; all of them print as
    their digits. *)
Definition safe (z : Z) : Prop := - 2 ^ 53 < z < 2 ^ 53.

#[global] Instance safe_dec z : Decision (safe z).
Proof. unfold safe. apply _. Defined.

(** Names, payloads and decoded frames: primitive values and arrays; a
    number is a safe integer. *)
Local Unset Elimination Schemes.
Inductive JsVal : Type :=
| JUndefined
| JNull
| JBool (b : bool)
| JNum (n : dsig safe)
| JStr (s : string)
| JArr (items : list JsVal).
Local Set Elimination Schemes.

(** The number written [z], for a literal in the safe range. *)
Notation "'JInt' z" := (JNum (z ↾ I)) (at level 10, z at level 9).

(** [v + ''].  An array prints its items joined by commas, with nothing for
    an item that is null or undefined. *)
Fixpoint toString (v : JsVal) : string :=
  match v with
  | JUndefined => "undefined"
  | JNull => "null"
  | JBool true => "true"
  | JBool false => "false"
  | JNum n => pretty (`n)
  | JStr s => s
  | JArr items =>
      (fix join (l : list JsVal) : string :=
         match l with
         | [] => ""
         | [x] => match x with JUndefined | JNull => "" | _ => toString x end
         | x :: rest =>
             (match x with JUndefined | JNull => "" | _ => toString x end)
             +:+ "," +:+ join rest
         end) items
  end.

(** The key under which [obj[v]] and [obj.hasOwnProperty(v)] look a value
    up. *)
Definition toPropertyKey (v : JsVal) : string := toString v.

(** [a || b] where [a] may be missing: the test is JavaScript truthiness. *)
Definition or_else {A : Type} (truthy : A -> bool) (a : option A) (b : A) : A :=
  match a with
  | Some x => if truthy x then x else b
  | None => b
  end.

Definition truthy_string (s : string) : bool :=
  match s with EmptyString => false | _ => true end.

Definition truthy_number (z : Z) : bool := negb (z =? 0).

Definition truthy_bool (b : bool) : bool := b.

Definition truthy_object {A : Type} (_ : A) : bool := true.

(** Truthiness of a value. *)
Definition truthy (v : JsVal) : bool :=
  match v with
  | JUndefined | JNull => false
  | JBool b => b
  | JNum n => truthy_number (`n)
  | JStr s => truthy_string s
  | JArr _ => true
  end.

(** Whether [v.length] is truthy, for a [v] that is neither null nor
    undefined: strings and arrays have a length, numbers and booleans have
    none. *)
Definition truthy_length (v : JsVal) : bool :=
  match v with
  | JStr s => truthy_string s
  | JArr [] => false
  | JArr (_ :: _) => true
  | _ => false
  end.

(** [v[i]], for a [v] that is neither null nor undefined: an item of an
    array, a character of a string, undefined otherwise. *)
Definition index (v : JsVal) (i : nat) : JsVal :=
  match v with
  | JArr items => default JUndefined (items !! i)
  | JStr s =>
      match String.get i s with
      | Some a => JStr (String a EmptyString)
      | None => JUndefined
      end
  | _ => JUndefined
  end.

(** The property names every plain object answers through its prototype,
    [__proto__] apart. *)
Definition Object_prototype : list string :=
  ["constructor"; "hasOwnProperty"; "isPrototypeOf"; "propertyIsEnumerable";
   "toLocaleString"; "toString"; "valueOf"; "__defineGetter__";
   "__defineSetter__"; "__lookupGetter__"; "__lookupSetter__"].

(** ** Collaborators *)

Definition Handler : Type := nat.
Definition Socket : Type := nat.
Definition Tick : Type := nat.
Definition Bytes : Type := list Byte.byte.

(** What [Object.assign({}, a, b)] builds: the entries of [b] over those of [a]. *)
Definition assign (a b : gmap string Z) : gmap string Z := b ∪ a.

(** [this.options] of a client, and the shape of the [defaults] module. *)
Module options.
Record t : Type := mk {
  hostname : string;
  port : Z;
  adapter : string;
  encoder : string;
  bundler : gmap string Z;
  stats : bool;
  socketTimeout : Z
}.
End options.

(** The [options] argument of the constructor; [None] is a missing property. *)
Module arg.
Record t : Type := mk {
  hostname : option string;
  port : option Z;
  adapter : option string;
  encoder : option string;
  bundler : option (gmap string Z);
  stats : option bool;
  socketTimeout : option Z;
  (** [None]: no [tick] property; [Some None]: [tick: null]. *)
  tick : option (option Tick);
  (** The properties of [options.channels], in enumeration order. *)
  channels : option (list (string * option Handler))
}.

Definition empty : t := mk None None None None None None None None None.
End arg.

Inductive JsError : Type :=
| TypeError
| Raised (err : string).

(** What the client does to the outside. *)
Inductive Event : Type :=
| EvEmit (signal : string) (socket : option Socket)
| EvEmitError (err : string)
| EvCreateSocket (adapter : string) (socket : option Socket)
| EvDisconnect (adapter : string) (socket : option Socket)
| EvSend (adapter : string) (socket : option Socket) (payload : Bytes)
| EvStats (packets : nat) (bytes : nat)
| EvHandle (channel : string) (handler : Handler) (packet : JsVal).

(** ** src/adapters/index.js *)
Module adapters.
(** An adapter module, as the client uses it.  [send] and [disconnect]
    return nothing the client reads; they appear in the trace. *)
Record Adapter : Type := mk {
  createSocket : options.t -> option Socket -> Socket
}.

(** Modelled from the spec: the adapter modules are not among the sources;
    section 4.3 names the members of one. *)
Definition members : list string := ["createSocket"; "send"; "disconnect"; "stop"].

(** The module-level [list]: its own properties, and the module that an
    assignment to [list['__proto__']] made its prototype, if any. *)
Record List : Type := mkList {
  own : gmap string Adapter;
  proto : option Adapter
}.

(** What [list[name]] can be: a registered module; a value found on the
    prototype chain, truthy but no adapter module (a method of
    [Object.prototype], that prototype itself, a member of the module that is
    the prototype); or undefined. *)
Inductive Resolved : Type :=
| Registered (a : Adapter)
| Inherited
| Missing.

(** [list[name]] *)
Definition get (list : List) (name : string) : Resolved :=
  match own list !! name with
  | Some a => Registered a
  | None =>
      if decide (name = "__proto__") then
        match proto list with
        | Some a => Registered a
        | None => Inherited
        end
      else if decide (name ∈ match proto list with
                             | Some _ => members ++ Object_prototype
                             | None => Object_prototype
                             end)
      then Inherited
      else Missing
  end.

Definition resolve (list : List) (name : string) : Resolved :=
  match get list name with
  | Missing => Missing
  | found => found
  end.

(** [list[name] = mod] *)
Definition register (name : string) (mod_ : Adapter) (list : List) : List :=
  match own list !! name with
  | Some _ => mkList (<[name := mod_]> (own list)) (proto list)
  | None =>
      if decide (name = "__proto__")
      then mkList (own list) (Some mod_)
      else mkList (<[name := mod_]> (own list)) (proto list)
  end.

(** [list] as the module builds it from its three requires. *)
Definition initial (ipc tcp udp : Adapter) : List :=
  mkList (<["udp" := udp]> (<["tcp" := tcp]> (<["ipc" := ipc]> ∅))) None.
End adapters.

(** ** The encoder registry *)
Module encoders.
(** An encoder: [encode] takes the pair of a channel name and its packets,
    [decode] gives back whatever value the bytes hold. *)
Record Encoder : Type := mk {
  encode : JsVal * list JsVal -> Bytes;
  decode : Bytes -> JsVal
}.

(** Modelled from the spec: the encoders index module is not among the
    sources.  Section 9 gives its lookup: resolved by string name, with a
    silent undefined on a miss; section 6 gives
    [register(name, implementation)]. *)
Definition resolve (list : gmap string Encoder) (name : string) : option Encoder :=
  match list !! name with
  | Some e => Some e
  | None => None
  end.

Definition register (name : string) (mod_ : Encoder) (list : gmap string Encoder)
  : gmap string Encoder :=
  <[name := mod_]> list.
End encoders.

(** ** Channel *)
Module Channel.
(** Modelled from the spec: the Channel class is not among the sources.
    Section 3 gives its fields (name, effective options, ordered pending
    queue, handlers, bundler timer idle or armed) and section 4.2 its
    methods.  [id] is the identity of the object: the rank of its [new]
    among all channels ever constructed. *)
Record t : Type := mk {
  id : nat;
  name : string;
  options : gmap string Z;
  packets : list JsVal;
  handlers : list Handler;
  timer : bool
}.

Definition new (id : nat) (name : string) (options : gmap string Z) : t :=
  mk id name options [] [] false.

Definition set_packets (q : list JsVal) (c : t) : t :=
  mk (id c) (name c) (options c) q (handlers c) (timer c).

Definition set_handlers (hs : list Handler) (c : t) : t :=
  mk (id c) (name c) (options c) (packets c) hs (timer c).

Definition set_timer (b : bool) (c : t) : t :=
  mk (id c) (name c) (options c) (packets c) (handlers c) b.

(** [c.packets.length], as a condition. *)
Definition pending (c : t) : bool :=
  match packets c with
  | [] => false
  | _ :: _ => true
  end.

(** Modelled from the spec: "mutate the handler set". *)
Definition addHandler (fn : Handler) (c : t) : t :=
  if decide (fn ∈ handlers c) then c else set_handlers (handlers c ++ [fn]) c.

Definition removeHandler (fn : Handler) (c : t) : t :=
  set_handlers (filter (λ h, h ≠ fn) (handlers c)) c.

(** Modelled from the spec: "arms a timer at the channel's configured
    interval". *)
Definition startBundler (c : t) : t := set_timer true c.

(** Modelled from the spec: "cancels the armed timer without flushing;
    queue contents are retained". *)
Definition resetBundler (c : t) : t := set_timer false c.

(** Modelled from the spec: "append to the tail of the pending queue
    (FIFO); arm the bundler timer if not already armed". *)
Definition send (payload : JsVal) (c : t) : t :=
  startBundler (set_packets (packets c ++ [payload]) c).

(** Modelled from the spec: "replace the entire pending queue with the
    single value payload, discarding any not-yet-sent entries; arm the
    bundler if not already armed". *)
Definition sendOnce (payload : JsVal) (c : t) : t :=
  startBundler (set_packets [payload] c).

(** The elements of what [handleData] is given: the items of an array; a
    value that is no array has none. *)
Definition elements (pkts : JsVal) : list JsVal :=
  match pkts with
  | JArr items => items
  | _ => []
  end.

(** Modelled from the spec: "delivers every element of packets, in order,
    to every currently registered handler". *)
Definition handleData (pkts : JsVal) (c : t) : list Event :=
  flat_map (λ p, map (λ h, EvHandle (name c) h p) (handlers c)) (elements pkts).

(** Modelled from the spec: the fields of section 3, as the enumerable own
    properties a [for ... in] meets on a Channel object. *)
Definition fields : list string := ["name"; "options"; "packets"; "handlers"; "timer"].

(** Whether [v.packets.length] can be read on the value [v] of a field of
    [c]: it can on the options when they have a [packets] entry (a number,
    without a length); on a string, an array, a timer or null the read of
    [length] or of [packets] is a TypeError. *)
Definition readable (c : t) (field : string) : bool :=
  bool_decide (field = "options" ∧ is_Some (options c !! "packets")).
End Channel.

(** ** The client object and the world around it *)
Module Client.
Record t : Type := mk {
  id : string;
  options : options.t;
  (** The own properties of [this.channels]. *)
  channels : gmap string Channel.t;
  (** The Channel that is the prototype of [this.channels], after an
      assignment to [this.channels['__proto__']]; [None] while the prototype
      is [Object.prototype]. *)
  proto : option Channel.t;
  fromServer : bool;
  tick : option Tick;
  socket : option Socket
}.

Definition set_channels (m : gmap string Channel.t) (c : t) : t :=
  mk (id c) (options c) m (proto c) (fromServer c) (tick c) (socket c).

Definition set_proto (p : option Channel.t) (c : t) : t :=
  mk (id c) (options c) (channels c) p (fromServer c) (tick c) (socket c).

Definition set_socket (s : option Socket) (c : t) : t :=
  mk (id c) (options c) (channels c) (proto c) (fromServer c) (tick c) s.
End Client.

Record World : Type := mkWorld {
  this : Client.t;
  adapters_list : adapters.List;
  encoders_list : gmap string encoders.Encoder;
  (** Whether somebody listens to the 'error' signal of the client. *)
  error_listener : bool;
  (** How many Channel objects have been constructed so far. *)
  allocated : nat;
  (** The Channels that were the prototype of [this.channels] and were
      replaced there, oldest first. *)
  orphans : list Channel.t;
  trace : list Event
}.

Definition set_this (c : Client.t) (w : World) : World :=
  mkWorld c (adapters_list w) (encoders_list w) (error_listener w) (allocated w)
    (orphans w) (trace w).

Definition set_allocated (n : nat) (w : World) : World :=
  mkWorld (this w) (adapters_list w) (encoders_list w) (error_listener w) n
    (orphans w) (trace w).

Definition set_orphans (l : list Channel.t) (w : World) : World :=
  mkWorld (this w) (adapters_list w) (encoders_list w) (error_listener w) (allocated w)
    l (trace w).

Definition set_trace (tr : list Event) (w : World) : World :=
  mkWorld (this w) (adapters_list w) (encoders_list w) (error_listener w) (allocated w)
    (orphans w) tr.

(** ** Methods as state transformers that may throw *)

Inductive Outcome (A : Type) : Type :=
| Return (a : A)
| Throw (e : JsError).

Arguments Return {A} a.
Arguments Throw {A} e.

Definition M (A : Type) : Type := World -> Outcome A * World.

Definition ret {A : Type} (a : A) : M A := λ w, (Return a, w).

Definition bind {A B : Type} (m : M A) (k : A -> M B) : M B :=
  λ w, match m w with
       | (Return a, w') => k a w'
       | (Throw e, w') => (Throw e, w')
       end.

Definition throw {A : Type} (e : JsError) : M A := λ w, (Throw e, w).

Definition get : M World := λ w, (Return w, w).

Definition modify (f : World -> World) : M unit := λ w, (Return tt, f w).

Declare Scope js_scope.
Delimit Scope js_scope with js.
Notation "x <- m ;; k" := (bind m (λ x, k))
  (at level 100, m at next level, right associativity) : js_scope.
Notation "m ;; k" := (bind m (λ _, k))
  (at level 100, right associativity) : js_scope.
Local Open Scope js_scope.

(** [this], as a method reads it and as it returns it for chaining. *)
Definition self : M Client.t := λ w, (Return (this w), w).

Definition out (e : Event) : M unit := modify (λ w, set_trace (trace w ++ [e]) w).

Definition outs (es : list Event) : M unit := modify (λ w, set_trace (trace w ++ es) w).

(** *** The table of channels as a JavaScript object *)

(** The world after the own properties of the table went through [f]. *)
Definition with_channels (f : gmap string Channel.t -> gmap string Channel.t)
    (w : World) : World :=
  set_this (Client.set_channels (f (Client.channels (this w))) (this w)) w.

(** The world after the Channel that is the prototype of the table went
    through [f]. *)
Definition with_proto (f : option Channel.t -> option Channel.t) (w : World) : World :=
  set_this (Client.set_proto (f (Client.proto (this w))) (this w)) w.

(** [this.channels.hasOwnProperty(key)].  The method is read off the table
    like any property: once the table has an own property of that name, a
    Channel, the call is a TypeError.  Otherwise the read ends at
    [Object.prototype], through the Channel that is the prototype if there is
    one, and the method answers for the own properties. *)
Definition hasOwnProperty (key : string) : M bool :=
  c <- self ;;
  match Client.channels c !! "hasOwnProperty" with
  | Some _ => throw TypeError
  | None => ret (bool_decide (is_Some (Client.channels c !! key)))
  end.

(** The world after [this.channels[key] = ch]: an own property of that name
    is overwritten; otherwise the name [__proto__] makes [ch] the prototype
    of the table, and the Channel that was the prototype is displaced; any
    other name becomes an own property. *)
Definition assigned (key : string) (ch : Channel.t) (w : World) : World :=
  match Client.channels (this w) !! key with
  | Some _ => with_channels (insert key ch) w
  | None =>
      if decide (key = "__proto__") then
        with_proto (λ _, Some ch)
          (set_orphans (orphans w ++ option_list (Client.proto (this w))) w)
      else with_channels (insert key ch) w
  end.

Definition put_channel (key : string) (ch : Channel.t) : M unit :=
  modify (assigned key ch).

(** The Channel that [this.channels[key]] is: an own property, or for the
    name [__proto__] the Channel that is the prototype.  Any other read gives
    undefined or a value that is no Channel. *)
Definition channel_at (key : string) (c : Client.t) : option Channel.t :=
  match Client.channels c !! key with
  | Some ch => Some ch
  | None => if decide (key = "__proto__") then Client.proto c else None
  end.

(** The world after the Channel that [this.channels[key]] is went through
    [method]; the Channel stays where it is. *)
Definition mutated (key : string) (method : Channel.t -> Channel.t) (w : World) : World :=
  match Client.channels (this w) !! key with
  | Some ch => with_channels (insert key (method ch)) w
  | None => if decide (key = "__proto__") then with_proto (fmap method) w else w
  end.

(** [this.channels[key].method(...)]: a [TypeError] when the property is
    undefined or no Channel. *)
Definition on_channel (key : string) (method : Channel.t -> Channel.t) : M unit :=
  c <- self ;;
  match channel_at key c with
  | Some _ => modify (mutated key method)
  | None => throw TypeError
  end.

(** [new Channel(...)]: the next object identity. *)
Definition new_Channel (name : string) (opts : gmap string Z) : M Channel.t :=
  w <- get ;;
  modify (set_allocated (S (allocated w))) ;;
  ret (Channel.new (allocated w) name opts).

(** [adapters.resolve(this.options.adapter).m(...)]: calling [m] on
    undefined, or on a value that has no such method, is a [TypeError]. *)
Definition the_adapter : M adapters.Adapter :=
  w <- get ;;
  match adapters.resolve (adapters_list w) (options.adapter (Client.options (this w))) with
  | adapters.Registered a => ret a
  | adapters.Inherited => throw TypeError
  | adapters.Missing => throw TypeError
  end.

Definition the_encoder : M encoders.Encoder :=
  w <- get ;;
  match encoders.resolve (encoders_list w) (options.encoder (Client.options (this w))) with
  | Some e => ret e
  | None => throw TypeError
  end.

(** *** subscribe(name, handler, options={}) *)
Definition subscribe (name : JsVal) (handler : option Handler) (opts : gmap string Z)
  : M Client.t :=
  let name := toString name in
  own <- hasOwnProperty name ;;
  (if own : bool then ret tt
   else
     c <- self ;;
     ch <- new_Channel name (assign (options.bundler (Client.options c)) opts) ;;
     put_channel name ch) ;;
  match handler with
  | Some fn => on_channel name (Channel.addHandler fn)
  | None => ret tt
  end ;;
  self.

(** *** unsubscribe(name, handler) *)
Definition unsubscribe (name : JsVal) (handler : Handler) : M Client.t :=
  let name := toString name in
  own <- hasOwnProperty name ;;
  if own : bool then
    on_channel name (Channel.removeHandler handler) ;;
    self
  else self.

(** *** createSocket(socket) *)
Definition createSocket (socket : option Socket) : M Socket :=
  a <- the_adapter ;;
  c <- self ;;
  out (EvCreateSocket (options.adapter (Client.options c)) socket) ;;
  ret (adapters.createSocket a (Client.options c) socket).

(** *** use(socket) *)
Definition use (socket : option Socket) : M Client.t :=
  c <- self ;;
  match Client.socket c with
  | Some s =>
      the_adapter ;;
      out (EvDisconnect (options.adapter (Client.options c)) (Some s))
  | None => ret tt
  end ;;
  s <- createSocket socket ;;
  modify (λ w, set_this (Client.set_socket (Some s) (this w)) w) ;;
  self.

(** *** handleError(err) *)
Definition handleError (err : string) : M unit :=
  w <- get ;;
  if error_listener w then out (EvEmitError err) else throw (Raised err).

(** What [for (let channel in this.channels)] meets after the own
    properties, when a Channel is the prototype of the table: the fields of
    that Channel which no own property shadows. *)
Definition inherited (c : Client.t) : list string :=
  match Client.proto c with
  | Some _ =>
      filter (λ f, Client.channels c !! f = None) Channel.fields
  | None => []
  end.

(** *** handleConnect(socket) *)
Definition handleConnect (socket : Socket) : M unit :=
  out (EvEmit "connect" (Some socket)) ;;
  out (EvEmit "connection" (Some socket)) ;;
  modify (with_channels
    (fmap (λ ch, if Channel.pending ch then Channel.startBundler ch else ch))) ;;
  c <- self ;;
  match Client.proto c with
  | Some ch =>
      if forallb (Channel.readable ch) (inherited c) then ret tt else throw TypeError
  | None => ret tt
  end.

(** *** handleDisconnect() *)
Definition handleDisconnect : M unit :=
  out (EvEmit "disconnect" None) ;;
  out (EvEmit "disconnection" None) ;;
  modify (λ w, set_this (Client.set_socket None (this w)) w).

(** *** _emit(channel, packets) *)
Definition _emit (channel : JsVal) (pkts : list JsVal) : M unit :=
  e <- the_encoder ;;
  let payload := encoders.encode e (channel, pkts) in
  the_adapter ;;
  c <- self ;;
  out (EvSend (options.adapter (Client.options c)) (Client.socket c) payload) ;;
  if options.stats (Client.options c)
  then out (EvStats (length pkts) (length payload))
  else ret tt.

(** *** send(name, payload) *)
Definition send (name : JsVal) (payload : JsVal) : M Client.t :=
  subscribe name None ∅ ;;
  on_channel (toPropertyKey name) (Channel.send payload) ;;
  self.

(** *** sendOnce(name, payload) *)
Definition sendOnce (name : JsVal) (payload : JsVal) : M Client.t :=
  subscribe name None ∅ ;;
  on_channel (toPropertyKey name) (Channel.sendOnce payload) ;;
  self.

(** *** sendNow(name, payload) *)
Definition sendNow (name : JsVal) (payload : JsVal) : M Client.t :=
  subscribe name None ∅ ;;
  _emit name [payload] ;;
  self.

(** *** handleRequest(evt) *)
Definition handleRequest (evt : Bytes) : M unit :=
  e <- the_encoder ;;
  let raw := encoders.decode e evt in
  if truthy raw && truthy_length raw then
    own <- hasOwnProperty (toPropertyKey (index raw 0)) ;;
    if own : bool then
      c <- self ;;
      match channel_at (toPropertyKey (index raw 0)) c with
      | Some ch => outs (Channel.handleData (index raw 1) ch)
      | None => throw TypeError
      end
    else ret tt
  else ret tt.

(** *** destroy() *)
Definition destroy : M unit :=
  the_adapter ;;
  c <- self ;;
  out (EvDisconnect (options.adapter (Client.options c)) (Client.socket c)) ;;
  modify (λ w, set_this (Client.set_socket None (this w)) w) ;;
  modify (with_channels (fmap Channel.resetBundler)) ;;
  c <- self ;;
  match inherited c with
  | [] => ret tt
  | _ :: _ => throw TypeError
  end.

(** *** constructor(options={}, socket=null) *)

(** [for (let c in options.channels) this.subscribe(c, options.channels[c])] *)
Fixpoint subscribe_all (chans : list (string * option Handler)) : M unit :=
  match chans with
  | [] => ret tt
  | (c, handler) :: rest => subscribe (JStr c) handler ∅ ;; subscribe_all rest
  end.

(** The fields the constructor sets from its options, before anything
    else. *)
Definition configured (defaults : options.t) (id : string) (opts : arg.t)
    (w : World) : World :=
  set_this (Client.mk id
    (options.mk
       (or_else truthy_string (arg.hostname opts) (options.hostname defaults))
       (or_else truthy_number (arg.port opts) (options.port defaults))
       (or_else truthy_string (arg.adapter opts) (options.adapter defaults))
       (or_else truthy_string (arg.encoder opts) (options.encoder defaults))
       (assign (options.bundler defaults) (or_else truthy_object (arg.bundler opts) ∅))
       (or_else truthy_bool (arg.stats opts) (options.stats defaults))
       (or_else truthy_number (arg.socketTimeout opts) (options.socketTimeout defaults)))
    ∅
    None
    (bool_decide (arg.tick opts ≠ None))
    (or_else truthy_object (arg.tick opts) None)
    None) w.

(** [defaults] is the defaults module and [id] the twenty random bytes in
    hexadecimal; both come from outside. *)
Definition constructor (defaults : options.t) (id : string)
    (opts : arg.t) (socket : option Socket) : M Client.t :=
  modify (configured defaults id opts) ;;
  match arg.channels opts with
  | Some chans => subscribe_all chans
  | None => ret tt
  end ;;
  modify (λ w, set_this (Client.set_socket None (this w)) w) ;;
  use socket ;;
  self.

(** ** The bundler timer *)

(** Modelled from the spec: the timer callback of the Channel class is not
    among the sources.  Section 4.2: "On expiry: if the queue is non-empty,
    the entire queue (in current FIFO order) is handed to the Client as one
    batch, then the queue is cleared"; the timer that fired is idle again, and
    a later send arms it anew.  A timer that is not armed does not fire: its
    expiry changes nothing.  The callback is written once, over the place the
    Channel object is kept at: [read] finds it, [write] puts its new state
    back. *)
Definition expiry (read : World -> option Channel.t)
    (write : Channel.t -> World -> World) : M unit :=
  w <- get ;;
  match read w with
  | Some ch =>
      if Channel.timer ch then
        modify (write (Channel.resetBundler ch)) ;;
        if Channel.pending ch then
          _emit (JStr (Channel.name ch)) (Channel.packets ch) ;;
          modify (write (Channel.set_packets [] (Channel.resetBundler ch)))
        else ret tt
      else ret tt
  | None => ret tt
  end.

(** The timer of the channel that is the own property [key] of the table. *)
Definition bundler_expiry (key : string) : M unit :=
  expiry (λ w, Client.channels (this w) !! key)
         (λ ch, with_channels (insert key ch)).

(** The timer of the Channel that is the prototype of the table. *)
Definition proto_expiry : M unit :=
  expiry (λ w, Client.proto (this w)) (λ ch, with_proto (λ _, Some ch)).

(** The timer of a Channel that was displaced as prototype of the table. *)
Definition orphan_expiry (i : nat) : M unit :=
  expiry (λ w, orphans w !! i) (λ ch w, set_orphans (<[i := ch]> (orphans w)) w).

(** ** Turns of the event loop *)

(** Everything that can happen to a client between two turns: a call of one
    of its methods by the application, by the adapter (the handle* family) or
    by a bundler timer, and a registration in one of the registries. *)
Inductive Call : Type :=
| Subscribe (name : JsVal) (handler : option Handler) (opts : gmap string Z)
| Unsubscribe (name : JsVal) (handler : Handler)
| Use (socket : option Socket)
| HandleError (err : string)
| HandleConnect (socket : Socket)
| HandleDisconnect
| Send (name payload : JsVal)
| SendOnce (name payload : JsVal)
| SendNow (name payload : JsVal)
| HandleRequest (evt : Bytes)
| Destroy
| Timer (key : string)
| TimerProto
| TimerOrphan (i : nat)
| RegisterAdapter (name : string) (mod_ : adapters.Adapter)
| RegisterEncoder (name : string) (mod_ : encoders.Encoder).

Definition void {A : Type} (m : M A) : M unit := m ;; ret tt.

Definition call (c : Call) : M unit :=
  match c with
  | Subscribe name handler opts => void (subscribe name handler opts)
  | Unsubscribe name handler => void (unsubscribe name handler)
  | Use socket => void (use socket)
  | HandleError err => handleError err
  | HandleConnect socket => handleConnect socket
  | HandleDisconnect => handleDisconnect
  | Send name payload => void (send name payload)
  | SendOnce name payload => void (sendOnce name payload)
  | SendNow name payload => void (sendNow name payload)
  | HandleRequest evt => handleRequest evt
  | Destroy => destroy
  | Timer key => bundler_expiry key
  | TimerProto => proto_expiry
  | TimerOrphan i => orphan_expiry i
  | RegisterAdapter name mod_ =>
      modify (λ w, mkWorld (this w) (adapters.register name mod_ (adapters_list w))
                     (encoders_list w) (error_listener w) (allocated w) (orphans w)
                     (trace w))
  | RegisterEncoder name mod_ =>
      modify (λ w, mkWorld (this w) (adapters_list w)
                     (encoders.register name mod_ (encoders_list w))
                     (error_listener w) (allocated w) (orphans w) (trace w))
  end.

(** A turn that throws leaves the world as the exception found it; the next
    turn starts from there. *)
Definition run (calls : list Call) (w : World) : World :=
  foldl (λ w c, (call c w).2) w calls.

(** The pending queue of the channel that is the own property [key] of the
    table; a channel that does not exist has nothing pending. *)
Definition pending (key : string) (w : World) : list JsVal :=
  match Client.channels (this w) !! key with
  | Some ch => Channel.packets ch
  | None => []
  end.

(** Whether the bundler timer of that channel is armed. *)
Definition armed (key : string) (w : World) : bool :=
  match Client.channels (this w) !! key with
  | Some ch => Channel.timer ch
  | None => false
  end.

(** ** Closed forms of the methods *)

(** The guard of subscribe, unsubscribe and handleRequest can be called:
    the table has no own property named [hasOwnProperty]. *)
Definition guarded (w : World) : Prop :=
  Client.channels (this w) !! "hasOwnProperty" = None.

#[global] Instance guarded_dec w : Decision (guarded w).
Proof. unfold guarded. apply _. Defined.

(** The world after [this.channels[key].method(...)] returned, for an own
    property. *)
Definition updated (key : string) (method : Channel.t -> Channel.t) (w : World) : World :=
  match Client.channels (this w) !! key with
  | Some ch => with_channels (insert key (method ch)) w
  | None => w
  end.

(** The world after the guarded creation at the head of [subscribe]. *)
Definition created (key : string) (opts : gmap string Z) (w : World) : World :=
  match Client.channels (this w) !! key with
  | Some _ => w
  | None =>
      assigned key
        (Channel.new (allocated w) key
           (assign (options.bundler (Client.options (this w))) opts))
        (set_allocated (S (allocated w)) w)
  end.

(** [if (handler) channel.addHandler(handler)] *)
Definition attach (handler : option Handler) (ch : Channel.t) : Channel.t :=
  match handler with
  | Some fn => Channel.addHandler fn ch
  | None => ch
  end.

(** The world [subscribe] leaves when it returns. *)
Definition subscribed (name : JsVal) (handler : option Handler)
    (opts : gmap string Z) (w : World) : World :=
  match handler with
  | Some fn => mutated (toString name) (Channel.addHandler fn) (created (toString name) opts w)
  | None => created (toString name) opts w
  end.

(** What [_emit] writes to the trace when both names resolve. *)
Definition emitted (e : encoders.Encoder) (channel : JsVal) (pkts : list JsVal)
    (w : World) : list Event :=
  EvSend (options.adapter (Client.options (this w))) (Client.socket (this w))
    (encoders.encode e (channel, pkts))
  :: (if options.stats (Client.options (this w))
      then [EvStats (length pkts) (length (encoders.encode e (channel, pkts)))]
      else []).

(** The world [use] leaves when the adapter name resolves to [a]. *)
Definition attached (a : adapters.Adapter) (socket : option Socket) (w : World) : World :=
  set_this
    (Client.set_socket
       (Some (adapters.createSocket a (Client.options (this w)) socket)) (this w))
    (set_trace
       (trace w
        ++ match Client.socket (this w) with
           | Some s => [EvDisconnect (options.adapter (Client.options (this w))) (Some s)]
           | None => []
           end
        ++ [EvCreateSocket (options.adapter (Client.options (this w))) socket])
       w).

(** The world [handleConnect] leaves, whether it returns or throws. *)
Definition resumed (socket : Socket) (w : World) : World :=
  with_channels
    (fmap (λ ch, if Channel.pending ch then Channel.startBundler ch else ch))
    (set_trace (trace w ++ [EvEmit "connect" (Some socket);
                            EvEmit "connection" (Some socket)]) w).

(** The world [destroy] leaves once the adapter name has resolved, whether
    it then returns or throws. *)
Definition destroyed (w : World) : World :=
  with_channels (fmap Channel.resetBundler)
    (set_this (Client.set_socket None (this w))
       (set_trace (trace w ++ [EvDisconnect (options.adapter (Client.options (this w)))
                                 (Client.socket (this w))]) w)).

(** The adapter module and the encoder the names of the client resolve to,
    if they do. *)
Definition adapter_of (w : World) : option adapters.Adapter :=
  match adapters.resolve (adapters_list w) (options.adapter (Client.options (this w))) with
  | adapters.Registered a => Some a
  | _ => None
  end.

Definition encoder_of (w : World) : option encoders.Encoder :=
  encoders.resolve (encoders_list w) (options.encoder (Client.options (this w))).

(** Everything of a world but its channels and the count of channel
    objects: the registries, the trace, and the options, socket and identity
    of the client. *)
Definition outside (w : World) : World :=
  set_orphans [] (set_allocated 0 (with_proto (λ _, None) (with_channels (λ _, ∅) w))).

(** What [handleRequest] forwards to the handlers of a channel. *)
Definition forwarded (e : encoders.Encoder) (evt : Bytes) (w : World) : list Event :=
  if truthy (encoders.decode e evt) && truthy_length (encoders.decode e evt) then
    match Client.channels (this w) !! toString (index (encoders.decode e evt) 0) with
    | Some ch => Channel.handleData (index (encoders.decode e evt) 1) ch
    | None => []
    end
  else [].

(** The world the constructor is in when it reaches [use]: the fields set,
    the channels of [options.channels] subscribed, as far as that went. *)
Definition populated (defaults : options.t) (id : string) (opts : arg.t)
    (w : World) : Outcome unit * World :=
  subscribe_all (default [] (arg.channels opts)) (configured defaults id opts w).

(** A call that appends to the pending queue of channel [key]. *)
Definition sends_on (key : string) (c : Call) : Prop :=
  match c with
  | Send name _ => toString name = key
  | _ => False
  end.

(** Channel objects are told apart by [Channel.id]: every channel of the
    table was constructed (its rank is below [allocated]), sits under its own
    name, and no two names hold the same object. *)
Definition distinct_channels (w : World) : Prop :=
  (∀ key ch, Client.channels (this w) !! key = Some ch →
     (Channel.id ch < allocated w)%nat ∧ Channel.name ch = key) ∧
  (∀ k1 k2 c1 c2,
     Client.channels (this w) !! k1 = Some c1 →
     Client.channels (this w) !! k2 = Some c2 →
     Channel.id c1 = Channel.id c2 → k1 = k2).

(** ** A small installation to run the client on *)
Module Sample.
Definition tcp : adapters.Adapter := adapters.mk (λ _ socket, default 40%nat socket).
Definition ipc : adapters.Adapter := adapters.mk (λ _ socket, default 41%nat socket).
Definition udp : adapters.Adapter := adapters.mk (λ _ socket, default 42%nat socket).

(** A codec that writes the channel name and one byte per packet.  It reads
    nothing from no bytes, an empty array from a single zero byte, the array
    of the name "c" alone from a single byte 3, the frame of the number 1
    from a single byte 1, and two packets for the channel "c" from anything
    else. *)
Definition json : encoders.Encoder :=
  encoders.mk
    (λ frame, String.list_byte_of_string (toString frame.1) ++ ((λ _, Byte.x2c) <$> frame.2))
    (λ bytes, match bytes with
              | [] => JUndefined
              | [Byte.x00] => JArr []
              | [Byte.x03] => JArr [JStr "c"]
              | [Byte.x01] => JArr [JInt 1; JArr [JStr "n"]]
              | [Byte.x02] => JArr [JStr "1"; JArr [JStr "n"]]
              | _ => JArr [JStr "c"; JArr [JInt 1; JInt 2]]
              end).

Definition defaults : options.t :=
  options.mk "0.0.0.0" 3000 "tcp" "json" {["every" := 16]} false 30000.

(** The world before any client exists; [this] is a blank object. *)
Definition boot : World :=
  mkWorld (Client.mk "" defaults ∅ None false None None)
    (adapters.initial ipc tcp udp) {["json" := json]} true 0 [] [].

(** [new Client()] *)
Definition fresh : World := (constructor defaults "5f1d" arg.empty None boot).2.

(** [new Client({encoder: 'msgpack'})], with no such encoder registered. *)
Definition no_encoder_arg : arg.t :=
  arg.mk None None None (Some "msgpack") None None None None None.

Definition no_encoder : World := (constructor defaults "a0c3" no_encoder_arg None boot).2.

(** [new Client({adapter: 'ws', channels: {a: h7}})], with no such adapter. *)
Definition no_adapter_arg : arg.t :=
  arg.mk None None (Some "ws") None None None None None (Some [("a", Some 7%nat)]).

(** A client after [send('hasOwnProperty', 1)]. *)
Definition shadowed : World := (send (JStr "hasOwnProperty") (JInt 1) fresh).2.
End Sample.

(** ** Vocabulary for the properties of the whole client *)

(** A call of [use]. *)
Definition is_use (c : Call) : Prop :=
  match c with
  | Use _ => True
  | _ => False
  end.

(** What the constructor fixes of a client: identity, options, origin. *)
Definition configuration (w : World) : string * options.t * bool * option Tick :=
  (Client.id (this w), Client.options (this w),
   Client.fromServer (this w), Client.tick (this w)).

(** Two states of one Channel object: same identity, name and options. *)
Definition same_object (ch ch' : Channel.t) : Prop :=
  Channel.id ch' = Channel.id ch
  ∧ Channel.name ch' = Channel.name ch
  ∧ Channel.options ch' = Channel.options ch.

(** The names of the channels of a client. *)
Definition names (w : World) : gset string := dom (Client.channels (this w)).

(** A channel name that is neither of the two names the table treats
    apart. *)
Definition ordinary (key : string) : Prop :=
  key ≠ "__proto__" ∧ key ≠ "hasOwnProperty".

(** The table is a plain map: no channel shadows [hasOwnProperty] and no
    Channel has been made its prototype. *)
Definition plain (w : World) : Prop :=
  guarded w ∧ Client.proto (this w) = None.

(** ** The application object (the Kalm instance file) *)
Module Kalm.
(** A registered component, as [terminate] reads it: its [adapters]
    property, if it has one, by the keys of that object in enumeration
    order. *)
Record Component : Type := mkComponent {
  adapters : option (list string)
}.

(** What the instance does to the outside: lines on the console component
    or on the global console, the shutdown signal, the calls of an adapter's
    [stop], and the exit of the process, immediate or chained to the promises
    of the [stop] calls. *)
Inductive Effect : Type :=
| Warn (msg : string)
| Error (msg : string)
| ConsoleError (msg : string)
| Shutdown
| Stop (adapter : string)
| ExitAfter (stops : list string)
| Exit.

Record t : Type := mk {
  components : gmap string Component;
  effects : list Effect
}.

Definition log (es : list Effect) (k : t) : t := mk (components k) (effects k ++ es).

(** [registerComponent(pkgName, pkg, callback)]; [pkg] is the component its
    constructor builds. *)
Definition registerComponent (pkgName : string) (pkg : Component) (k : t) : t :=
  mk (<[pkgName := pkg]> (components k)) (effects k).

(** [terminate()] *)
Definition terminate (k : t) : Outcome unit * t :=
  match components k !! "console" with
  | None => (Throw TypeError, k)
  | Some _ =>
      let k := log [Warn "Shutting down..."; Shutdown] k in
      match components k !! "net" with
      | Some net =>
          match adapters net with
          | Some keys => (Return tt, log ((Stop <$> keys) ++ [ExitAfter keys]) k)
          | None => (Return tt, log [Exit] k)
          end
      | None => (Return tt, log [Exit] k)
      end
  end.

Definition quote : string := String (Ascii.ascii_of_nat 34) EmptyString.

(** The lines [_interrupt] writes: the failing component, if named, then
    the error. *)
Definition report (err : string) (component : option string) : list string :=
  match component with
  | Some c =>
      if truthy_string c
      then [("Failure to load component " +:+ quote +:+ c +:+ quote)%string; err]
      else [err]
  | None => [err]
  end.

(** [_interrupt(err, component)], bound to the instance. *)
Definition _interrupt (err : string) (component : option string) (k : t)
  : Outcome unit * t :=
  match components k !! "console" with
  | Some _ => terminate (log (Error <$> report err component) k)
  | None => terminate (log (ConsoleError <$> report err component) k)
  end.

(** Whether the process was told to exit, at once or after the adapters. *)
Definition exits (k : t) : Prop :=
  Exit ∈ effects k ∨ ∃ keys, ExitAfter keys ∈ effects k.
End Kalm.

(** * Proofs *)

Local Open Scope js_scope.

(** ** The methods compute their closed forms *)

Ltac js_unfold :=
  unfold void, send, sendOnce, sendNow, subscribe, unsubscribe, use, createSocket,
    handleError, handleConnect, handleDisconnect, _emit, handleRequest, destroy,
    bundler_expiry, proto_expiry, orphan_expiry, expiry, the_adapter, the_encoder,
    new_Channel, on_channel, put_channel, hasOwnProperty,
    out, outs, self, get, modify, throw, bind, ret.

Lemma bind_return {A B : Type} (m : M A) (k : A -> M B) w a w' :
  m w = (Return a, w') → bind m k w = k a w'.
Proof. unfold bind. by intros ->. Qed.

Lemma hasOwnProperty_eq key w :
  hasOwnProperty key w =
  if decide (guarded w)
  then (Return (bool_decide (is_Some (Client.channels (this w) !! key))), w)
  else (Throw TypeError, w).
Proof.
  js_unfold. simpl. case_decide as Hg; unfold guarded in Hg.
  - by rewrite Hg.
  - by destruct (Client.channels (this w) !! "hasOwnProperty").
Qed.

Lemma on_channel_eq key method w :
  on_channel key method w =
  match channel_at key (this w) with
  | Some _ => (Return tt, mutated key method w)
  | None => (Throw TypeError, w)
  end.
Proof. js_unfold. simpl. by destruct (channel_at key (this w)). Qed.

Lemma channel_at_own key c ch :
  Client.channels c !! key = Some ch → channel_at key c = Some ch.
Proof. unfold channel_at. by intros ->. Qed.

Lemma mutated_own key method w :
  Client.channels (this (mutated key method w))
  = Client.channels (this (updated key method w)).
Proof.
  unfold mutated, updated.
  destruct (Client.channels (this w) !! key); [done|]. by case_decide.
Qed.

Lemma mutated_updated key method w :
  is_Some (Client.channels (this w) !! key) ∨ key ≠ "__proto__" →
  mutated key method w = updated key method w.
Proof.
  unfold mutated, updated. intros [[ch ->]|Hk]; [done|].
  destruct (Client.channels (this w) !! key); [done|]. by rewrite decide_False.
Qed.

Lemma created_lookup key opts w :
  key ≠ "__proto__" →
  is_Some (Client.channels (this (created key opts w)) !! key).
Proof.
  intros Hk. unfold created, assigned.
  destruct (Client.channels (this w) !! key) eqn:E; simpl.
  - by rewrite E.
  - rewrite E, decide_False by done. simpl. by rewrite lookup_insert_eq.
Qed.

Lemma created_lookup_ne key key' opts w :
  key ≠ key' →
  Client.channels (this (created key opts w)) !! key' = Client.channels (this w) !! key'.
Proof.
  intros Hne. unfold created, assigned.
  destruct (Client.channels (this w) !! key) eqn:E; simpl; [done|].
  rewrite E. case_decide; simpl; [done|]. by rewrite lookup_insert_ne.
Qed.

Lemma created_proto opts w :
  Client.channels (this (created "__proto__" opts w)) = Client.channels (this w).
Proof.
  unfold created, assigned.
  destruct (Client.channels (this w) !! "__proto__") eqn:E; simpl; [done|].
  by rewrite E.
Qed.

Lemma channel_at_created key opts w :
  is_Some (channel_at key (this (created key opts w))).
Proof.
  unfold channel_at, created, assigned.
  destruct (Client.channels (this w) !! key) eqn:E; simpl.
  - by rewrite E.
  - rewrite E. case_decide as Hk; simpl.
    + rewrite E. eauto.
    + rewrite lookup_insert_eq. eauto.
Qed.

Lemma updated_lookup key method w :
  Client.channels (this (updated key method w)) !! key
  = method <$> Client.channels (this w) !! key.
Proof.
  unfold updated.
  destruct (Client.channels (this w) !! key) eqn:E; simpl.
  - by rewrite lookup_insert_eq.
  - by rewrite E.
Qed.

Lemma updated_lookup_ne key key' method w :
  key ≠ key' →
  Client.channels (this (updated key method w)) !! key' = Client.channels (this w) !! key'.
Proof.
  intros Hne. unfold updated.
  destruct (Client.channels (this w) !! key); simpl; [|done].
  by rewrite lookup_insert_ne.
Qed.

Lemma mutated_lookup key method w :
  Client.channels (this (mutated key method w)) !! key
  = method <$> Client.channels (this w) !! key.
Proof. rewrite mutated_own. apply updated_lookup. Qed.

Lemma mutated_lookup_ne key key' method w :
  key ≠ key' →
  Client.channels (this (mutated key method w)) !! key' = Client.channels (this w) !! key'.
Proof. intros. rewrite mutated_own. by apply updated_lookup_ne. Qed.

Lemma channel_at_mutated key method w :
  channel_at key (this (mutated key method w)) = method <$> channel_at key (this w).
Proof.
  unfold channel_at, mutated.
  destruct (Client.channels (this w) !! key) eqn:E; simpl.
  - by rewrite lookup_insert_eq.
  - case_decide; simpl; by rewrite E.
Qed.

Lemma guarded_created key opts w :
  guarded w → key ≠ "hasOwnProperty" → guarded (created key opts w).
Proof. unfold guarded. intros Hw Hk. by rewrite created_lookup_ne. Qed.

Lemma guarded_mutated key method w : guarded w → guarded (mutated key method w).
Proof.
  unfold guarded. intros Hw. destruct (decide (key = "hasOwnProperty")) as [->|Hk].
  - by rewrite mutated_lookup, Hw.
  - by rewrite mutated_lookup_ne.
Qed.

Lemma subscribe_eq name handler opts w :
  subscribe name handler opts w =
  if decide (guarded w)
  then (Return (this (subscribed name handler opts w)), subscribed name handler opts w)
  else (Throw TypeError, w).
Proof.
  unfold subscribe. unfold bind at 1. rewrite hasOwnProperty_eq.
  case_decide as Hg; [|done].
  assert (Hc : (if bool_decide (is_Some (Client.channels (this w) !! toString name))
                then ret tt
                else c <- self ;;
                     ch <- new_Channel (toString name)
                             (assign (options.bundler (Client.options c)) opts) ;;
                     put_channel (toString name) ch) w
               = (Return tt, created (toString name) opts w)).
  { unfold created. destruct (Client.channels (this w) !! toString name) eqn:E.
    - rewrite bool_decide_eq_true_2 by eauto. done.
    - rewrite bool_decide_eq_false_2 by (by intros [? [=]]). done. }
  rewrite (bind_return _ _ _ _ _ Hc). unfold subscribed.
  destruct handler as [fn|].
  - unfold bind at 1. rewrite on_channel_eq.
    by destruct (channel_at_created (toString name) opts w) as [ch ->].
  - done.
Qed.

Lemma channel_at_subscribed name handler opts w :
  is_Some (channel_at (toString name) (this (subscribed name handler opts w))).
Proof.
  unfold subscribed. destruct handler.
  - rewrite channel_at_mutated. apply fmap_is_Some, channel_at_created.
  - apply channel_at_created.
Qed.

Lemma subscribed_lookup name handler opts w :
  toString name ≠ "__proto__" →
  is_Some (Client.channels (this (subscribed name handler opts w)) !! toString name).
Proof.
  intros Hk. unfold subscribed. destruct handler.
  - rewrite mutated_lookup. by apply fmap_is_Some, created_lookup.
  - by apply created_lookup.
Qed.

Lemma send_eq name payload w :
  send name payload w =
  if decide (guarded w)
  then (Return (this (mutated (toString name) (Channel.send payload)
                        (subscribed name None ∅ w))),
        mutated (toString name) (Channel.send payload) (subscribed name None ∅ w))
  else (Throw TypeError, w).
Proof.
  unfold send, toPropertyKey. unfold bind at 1. rewrite subscribe_eq.
  case_decide; [|done].
  erewrite bind_return; [reflexivity|].
  rewrite on_channel_eq.
  by destruct (channel_at_subscribed name None ∅ w) as [ch ->].
Qed.

Lemma sendOnce_eq name payload w :
  sendOnce name payload w =
  if decide (guarded w)
  then (Return (this (mutated (toString name) (Channel.sendOnce payload)
                        (subscribed name None ∅ w))),
        mutated (toString name) (Channel.sendOnce payload) (subscribed name None ∅ w))
  else (Throw TypeError, w).
Proof.
  unfold sendOnce, toPropertyKey. unfold bind at 1. rewrite subscribe_eq.
  case_decide; [|done].
  erewrite bind_return; [reflexivity|].
  rewrite on_channel_eq.
  by destruct (channel_at_subscribed name None ∅ w) as [ch ->].
Qed.

Lemma the_adapter_eq w :
  the_adapter w =
  match adapter_of w with
  | Some a => (Return a, w)
  | None => (Throw TypeError, w)
  end.
Proof.
  js_unfold. unfold adapter_of. simpl. by destruct (adapters.resolve _ _).
Qed.

Lemma emit_eq channel pkts w :
  _emit channel pkts w =
  match encoder_of w, adapter_of w with
  | Some e, Some _ => (Return tt, set_trace (trace w ++ emitted e channel pkts w) w)
  | _, _ => (Throw TypeError, w)
  end.
Proof.
  unfold _emit. unfold bind at 1. unfold the_encoder, get, bind at 1, encoder_of.
  destruct (encoders.resolve _ _) as [e|]; [|done]. unfold ret at 1.
  unfold bind at 1. rewrite the_adapter_eq.
  destruct (adapter_of w); [|done].
  js_unfold. unfold emitted. simpl.
  destruct (options.stats _); simpl; [|done].
  unfold set_trace. simpl. by rewrite <- app_assoc.
Qed.

Lemma sendNow_eq name payload w :
  sendNow name payload w =
  if decide (guarded w) then
    match encoder_of (subscribed name None ∅ w), adapter_of (subscribed name None ∅ w) with
    | Some e, Some _ =>
        (Return (this (subscribed name None ∅ w)),
         set_trace (trace (subscribed name None ∅ w)
                    ++ emitted e name [payload] (subscribed name None ∅ w))
           (subscribed name None ∅ w))
    | _, _ => (Throw TypeError, subscribed name None ∅ w)
    end
  else (Throw TypeError, w).
Proof.
  unfold sendNow. unfold bind at 1. rewrite subscribe_eq.
  case_decide; [|done].
  unfold bind at 1. rewrite emit_eq.
  destruct (encoder_of _); [|done].
  by destruct (adapter_of _).
Qed.

Lemma unsubscribe_eq name handler w :
  unsubscribe name handler w =
  if decide (guarded w)
  then (Return (this (updated (toString name) (Channel.removeHandler handler) w)),
        updated (toString name) (Channel.removeHandler handler) w)
  else (Throw TypeError, w).
Proof.
  unfold unsubscribe. unfold bind at 1. rewrite hasOwnProperty_eq.
  case_decide; [|done]. unfold updated.
  destruct (Client.channels (this w) !! toString name) as [ch|] eqn:E.
  - rewrite bool_decide_eq_true_2 by eauto.
    unfold bind at 1. rewrite on_channel_eq, (channel_at_own _ _ ch E).
    rewrite mutated_updated by (left; rewrite E; eauto). unfold updated. by rewrite E.
  - rewrite bool_decide_eq_false_2 by (by intros [? [=]]). done.
Qed.

Lemma use_eq socket w :
  use socket w =
  match adapter_of w with
  | Some a => (Return (this (attached a socket w)), attached a socket w)
  | None => (Throw TypeError, w)
  end.
Proof.
  unfold use, createSocket. unfold bind at 1, self at 1.
  destruct (Client.socket (this w)) as [s|] eqn:Es.
  - unfold bind at 1. unfold bind at 1. rewrite the_adapter_eq.
    destruct (adapter_of w) as [a|] eqn:Ea; [|done].
    unfold out at 1, modify at 1.
    unfold bind at 1. unfold bind at 1. rewrite the_adapter_eq.
    change (adapter_of (set_trace _ w)) with (adapter_of w). rewrite Ea.
    js_unfold. unfold attached, set_trace, set_this. simpl.
    rewrite Es. by rewrite <- app_assoc.
  - unfold bind at 1. unfold ret at 1.
    unfold bind at 1. unfold bind at 1. rewrite the_adapter_eq.
    destruct (adapter_of w) as [a|] eqn:Ea; [|done].
    js_unfold. unfold attached, set_trace, set_this. simpl. by rewrite Es.
Qed.

Lemma inherited_mapped (f : Channel.t -> Channel.t) c :
  inherited (Client.set_channels (f <$> Client.channels c) c) = inherited c.
Proof.
  unfold inherited. simpl. destruct (Client.proto c); [|done].
  apply list_filter_iff. intros x. rewrite lookup_fmap.
  by destruct (Client.channels c !! x).
Qed.

Lemma inherited_resumed socket w : inherited (this (resumed socket w)) = inherited (this w).
Proof.
  exact (inherited_mapped
    (λ ch, if Channel.pending ch then Channel.startBundler ch else ch) (this w)).
Qed.

Lemma inherited_destroyed w : inherited (this (destroyed w)) = inherited (this w).
Proof.
  exact (inherited_mapped Channel.resetBundler (Client.set_socket None (this w))).
Qed.

Lemma handleConnect_eq socket w :
  handleConnect socket w =
  (match Client.proto (this w) with
   | Some ch =>
       if forallb (Channel.readable ch) (inherited (this w))
       then Return tt else Throw TypeError
   | None => Return tt
   end, resumed socket w).
Proof.
  unfold handleConnect, out.
  do 3 (unfold bind at 1, modify at 1). unfold bind at 1, self at 1.
  assert (Hw : with_channels
    (fmap (λ ch, if Channel.pending ch then Channel.startBundler ch else ch))
    (set_trace
       (trace (set_trace (trace w ++ [EvEmit "connect" (Some socket)]) w)
        ++ [EvEmit "connection" (Some socket)])
       (set_trace (trace w ++ [EvEmit "connect" (Some socket)]) w))
    = resumed socket w).
  { unfold resumed, with_channels, set_this, set_trace.
    cbn [this adapters_list encoders_list error_listener allocated orphans trace].
    by rewrite <- app_assoc. }
  rewrite Hw.
  change (Client.proto (this (resumed socket w))) with (Client.proto (this w)).
  rewrite inherited_resumed.
  destruct (Client.proto (this w)); [|done]. by destruct (forallb _ _).
Qed.

Lemma destroy_eq w :
  destroy w =
  match adapter_of w with
  | Some _ =>
      (match inherited (this w) with
       | [] => Return tt
       | _ :: _ => Throw TypeError
       end, destroyed w)
  | None => (Throw TypeError, w)
  end.
Proof.
  unfold destroy. unfold bind at 1. rewrite the_adapter_eq.
  destruct (adapter_of w); [|done].
  unfold bind at 1, self at 1. unfold out.
  do 3 (unfold bind at 1, modify at 1). unfold bind at 1, self at 1.
  change (with_channels _ _) with (destroyed w).
  rewrite inherited_destroyed. by destruct (inherited (this w)).
Qed.

Lemma set_trace_nil w : set_trace (trace w ++ []) w = w.
Proof. destruct w. unfold set_trace. simpl. by rewrite app_nil_r. Qed.

Lemma handleRequest_eq evt w :
  handleRequest evt w =
  match encoder_of w with
  | Some e =>
      if truthy (encoders.decode e evt) && truthy_length (encoders.decode e evt) then
        if decide (guarded w)
        then (Return tt, set_trace (trace w ++ forwarded e evt w) w)
        else (Throw TypeError, w)
      else (Return tt, w)
  | None => (Throw TypeError, w)
  end.
Proof.
  unfold handleRequest. unfold bind at 1. unfold the_encoder, get, bind at 1, encoder_of.
  destruct (encoders.resolve _ _) as [e|]; [|done]. unfold ret at 1.
  unfold forwarded.
  destruct (truthy _ && truthy_length _); [|done].
  unfold bind at 1. rewrite hasOwnProperty_eq. case_decide; [|done].
  unfold toPropertyKey.
  destruct (Client.channels (this w) !! toString (index (encoders.decode e evt) 0))
    as [ch|] eqn:E.
  - rewrite bool_decide_eq_true_2 by eauto.
    unfold bind, self. by rewrite (channel_at_own _ _ ch E).
  - rewrite bool_decide_eq_false_2 by (by intros [? [=]]).
    by rewrite set_trace_nil.
Qed.

Lemma expiry_eq read write w :
  expiry read write w =
  match read w with
  | Some ch =>
      if Channel.timer ch then
        if Channel.pending ch then
          match encoder_of (write (Channel.resetBundler ch) w),
                adapter_of (write (Channel.resetBundler ch) w) with
          | Some e, Some _ =>
              (Return tt,
               write (Channel.set_packets [] (Channel.resetBundler ch))
                 (set_trace
                    (trace (write (Channel.resetBundler ch) w)
                     ++ emitted e (JStr (Channel.name ch)) (Channel.packets ch)
                          (write (Channel.resetBundler ch) w))
                    (write (Channel.resetBundler ch) w)))
          | _, _ => (Throw TypeError, write (Channel.resetBundler ch) w)
          end
        else (Return tt, write (Channel.resetBundler ch) w)
      else (Return tt, w)
  | None => (Return tt, w)
  end.
Proof.
  unfold expiry. unfold bind at 1, get at 1.
  destruct (read w) as [ch|]; [|done].
  destruct (Channel.timer ch); [|done].
  unfold bind at 1, modify at 1.
  destruct (Channel.pending ch); [|done].
  unfold bind at 1. rewrite emit_eq.
  destruct (encoder_of _); [|done]. by destruct (adapter_of _).
Qed.

Lemma bundler_expiry_eq key w :
  bundler_expiry key w =
  match Client.channels (this w) !! key with
  | Some ch =>
      if Channel.timer ch then
        if Channel.pending ch then
          match encoder_of w, adapter_of w with
          | Some e, Some _ =>
              (Return tt,
               updated key (Channel.set_packets [])
                 (set_trace (trace w ++ emitted e (JStr (Channel.name ch))
                                          (Channel.packets ch) w)
                    (updated key Channel.resetBundler w)))
          | _, _ => (Throw TypeError, updated key Channel.resetBundler w)
          end
        else (Return tt, updated key Channel.resetBundler w)
      else (Return tt, w)
  | None => (Return tt, w)
  end.
Proof.
  unfold bundler_expiry. rewrite expiry_eq.
  destruct (Client.channels (this w) !! key) as [ch|] eqn:E; [|done].
  destruct (Channel.timer ch); [|done].
  assert (Hu : with_channels (insert key (Channel.resetBundler ch)) w
               = updated key Channel.resetBundler w).
  { unfold updated. by rewrite E. }
  rewrite Hu.
  destruct (Channel.pending ch); [|done].
  change (encoder_of (updated key Channel.resetBundler w)) with
    (encoders.resolve (encoders_list (updated key Channel.resetBundler w))
       (options.encoder (Client.options (this (updated key Channel.resetBundler w))))).
  assert (He : encoder_of (updated key Channel.resetBundler w) = encoder_of w).
  { unfold updated. by rewrite E. }
  assert (Ha : adapter_of (updated key Channel.resetBundler w) = adapter_of w).
  { unfold updated. by rewrite E. }
  fold (encoder_of (updated key Channel.resetBundler w)). rewrite He, Ha.
  destruct (encoder_of w); [|done]. destruct (adapter_of w); [|done].
  f_equal. unfold updated, emitted. rewrite E.
  cbn [with_channels this set_this set_trace Client.channels Client.set_channels
       trace Client.options Client.socket].
  by rewrite lookup_insert_eq.
Qed.

(** ** What a call does to the queue and the timer of a channel *)

Lemma pending_ext key w w' :
  Client.channels (this w) = Client.channels (this w') → pending key w = pending key w'.
Proof. unfold pending. by intros ->. Qed.

Lemma armed_ext key w w' :
  Client.channels (this w) = Client.channels (this w') → armed key w = armed key w'.
Proof. unfold armed. by intros ->. Qed.

Lemma pending_created key k opts w : pending key (created k opts w) = pending key w.
Proof.
  unfold pending. destruct (decide (k = key)) as [->|Hne].
  - unfold created, assigned. destruct (Client.channels (this w) !! key) eqn:E; simpl.
    + by rewrite E.
    + rewrite E. case_decide; simpl; [by rewrite E|by rewrite lookup_insert_eq].
  - by rewrite created_lookup_ne.
Qed.

Lemma armed_created key k opts w : armed key (created k opts w) = armed key w.
Proof.
  unfold armed. destruct (decide (k = key)) as [->|Hne].
  - unfold created, assigned. destruct (Client.channels (this w) !! key) eqn:E; simpl.
    + by rewrite E.
    + rewrite E. case_decide; simpl; [by rewrite E|by rewrite lookup_insert_eq].
  - by rewrite created_lookup_ne.
Qed.

Lemma pending_updated key k method w :
  pending key (updated k method w) =
  if decide (k = key)
  then from_option (λ ch, Channel.packets (method ch)) [] (Client.channels (this w) !! k)
  else pending key w.
Proof.
  unfold pending. case_decide as Hk.
  - subst k. rewrite updated_lookup. by destruct (Client.channels (this w) !! key).
  - by rewrite updated_lookup_ne.
Qed.

Lemma armed_updated key k method w :
  armed key (updated k method w) =
  if decide (k = key)
  then from_option (λ ch, Channel.timer (method ch)) false (Client.channels (this w) !! k)
  else armed key w.
Proof.
  unfold armed. case_decide as Hk.
  - subst k. rewrite updated_lookup. by destruct (Client.channels (this w) !! key).
  - by rewrite updated_lookup_ne.
Qed.

Lemma pending_mutated key k method w :
  pending key (mutated k method w) = pending key (updated k method w).
Proof. apply pending_ext, mutated_own. Qed.

Lemma armed_mutated key k method w :
  armed key (mutated k method w) = armed key (updated k method w).
Proof. apply armed_ext, mutated_own. Qed.

Lemma pending_updated_same key k method w :
  (∀ ch, Channel.packets (method ch) = Channel.packets ch) →
  pending key (updated k method w) = pending key w.
Proof.
  intros Hm. rewrite pending_updated. case_decide; [subst k|done].
  unfold pending. destruct (Client.channels (this w) !! key); simpl; auto.
Qed.

Lemma armed_updated_same key k method w :
  (∀ ch, Channel.timer (method ch) = Channel.timer ch) →
  armed key (updated k method w) = armed key w.
Proof.
  intros Hm. rewrite armed_updated. case_decide; [subst k|done].
  unfold armed. destruct (Client.channels (this w) !! key); simpl; auto.
Qed.

Lemma addHandler_packets fn ch :
  Channel.packets (Channel.addHandler fn ch) = Channel.packets ch.
Proof. unfold Channel.addHandler. by case_decide. Qed.

Lemma addHandler_timer fn ch :
  Channel.timer (Channel.addHandler fn ch) = Channel.timer ch.
Proof. unfold Channel.addHandler. by case_decide. Qed.

Lemma pending_subscribed key name handler opts w :
  pending key (subscribed name handler opts w) = pending key w.
Proof.
  unfold subscribed. destruct handler.
  - rewrite pending_mutated, pending_updated_same by apply addHandler_packets.
    apply pending_created.
  - apply pending_created.
Qed.

Lemma armed_subscribed key name handler opts w :
  armed key (subscribed name handler opts w) = armed key w.
Proof.
  unfold subscribed. destruct handler.
  - rewrite armed_mutated, armed_updated_same by apply addHandler_timer.
    apply armed_created.
  - apply armed_created.
Qed.

Lemma pending_sent key name payload w :
  toString name ≠ "__proto__" →
  pending key (mutated (toString name) (Channel.send payload) (subscribed name None ∅ w)) =
  if decide (toString name = key) then pending key w ++ [payload] else pending key w.
Proof.
  intros Hp. rewrite pending_mutated, pending_updated. case_decide as Hk.
  - subst key. rewrite <- (pending_subscribed (toString name) name None ∅ w).
    unfold pending. by destruct (subscribed_lookup name None ∅ w Hp) as [ch ->].
  - apply pending_subscribed.
Qed.

Lemma pending_sentOnce key name payload w :
  toString name ≠ "__proto__" →
  pending key (mutated (toString name) (Channel.sendOnce payload)
                 (subscribed name None ∅ w)) =
  if decide (toString name = key) then [payload] else pending key w.
Proof.
  intros Hp. rewrite pending_mutated, pending_updated. case_decide as Hk.
  - by destruct (subscribed_lookup name None ∅ w Hp) as [ch ->].
  - apply pending_subscribed.
Qed.


Lemma void_snd {A : Type} (m : M A) w : (void m w).2 = (m w).2.
Proof. unfold void, bind, ret. by destruct (m w) as [[] ?]. Qed.

(** ** What a call leaves alone *)

Lemma outside_created key opts w : outside (created key opts w) = outside w.
Proof.
  unfold created, assigned. destruct (Client.channels (this w) !! key) eqn:E; [done|].
  simpl. rewrite E. by case_decide.
Qed.

Lemma outside_updated key method w : outside (updated key method w) = outside w.
Proof. unfold updated. by destruct (Client.channels (this w) !! key). Qed.

Lemma outside_mutated key method w : outside (mutated key method w) = outside w.
Proof.
  unfold mutated. destruct (Client.channels (this w) !! key); [done|]. by case_decide.
Qed.

Lemma outside_subscribed name handler opts w :
  outside (subscribed name handler opts w) = outside w.
Proof.
  unfold subscribed. destruct handler; by rewrite ?outside_mutated, outside_created.
Qed.

Lemma encoder_of_outside w : encoder_of w = encoder_of (outside w).
Proof. done. Qed.

Lemma adapter_of_outside w : adapter_of w = adapter_of (outside w).
Proof. done. Qed.

Lemma trace_outside w : trace w = trace (outside w).
Proof. done. Qed.

Lemma emitted_outside e channel pkts w :
  emitted e channel pkts w = emitted e channel pkts (outside w).
Proof. done. Qed.

Lemma socket_outside w : Client.socket (this w) = Client.socket (this (outside w)).
Proof. done. Qed.

Lemma configuration_outside w : configuration w = configuration (outside w).
Proof. done. Qed.

Lemma encoder_of_subscribed name handler opts w :
  encoder_of (subscribed name handler opts w) = encoder_of w.
Proof. by rewrite encoder_of_outside, outside_subscribed. Qed.

Lemma adapter_of_subscribed name handler opts w :
  adapter_of (subscribed name handler opts w) = adapter_of w.
Proof. by rewrite adapter_of_outside, outside_subscribed. Qed.

Lemma trace_subscribed name handler opts w :
  trace (subscribed name handler opts w) = trace w.
Proof. by rewrite trace_outside, outside_subscribed. Qed.

Lemma emitted_subscribed e channel pkts name handler opts w :
  emitted e channel pkts (subscribed name handler opts w) = emitted e channel pkts w.
Proof. by rewrite emitted_outside, outside_subscribed. Qed.

Lemma outside_set_trace tr w : outside (set_trace tr w) = set_trace tr (outside w).
Proof. done. Qed.

(** A timer callback changes nothing outside the channels but the trace. *)
Lemma outside_expiry read write w :
  (∀ ch v, outside (write ch v) = outside v) →
  ∃ tr, outside (expiry read write w).2 = outside (set_trace tr w).
Proof.
  intros Hw. rewrite expiry_eq.
  destruct (read w) as [ch|]; [|by exists (trace w); destruct w].
  destruct (Channel.timer ch); [|by exists (trace w); destruct w].
  destruct (Channel.pending ch).
  - rewrite (encoder_of_outside (write _ _)), (adapter_of_outside (write _ _)), Hw.
    destruct (encoder_of _) as [e|]; [destruct (adapter_of _)|]; cbn [snd].
    + rewrite Hw, outside_set_trace, Hw, <- outside_set_trace. eexists. reflexivity.
    + rewrite Hw. by exists (trace w); destruct w.
    + rewrite Hw. by exists (trace w); destruct w.
  - cbn [snd]. rewrite Hw. by exists (trace w); destruct w.
Qed.

(** The configuration and the socket are outside the channels, and are no
    part of the trace. *)
Lemma configuration_expiry read write w :
  (∀ ch v, outside (write ch v) = outside v) →
  configuration (expiry read write w).2 = configuration w.
Proof.
  intros Hw. destruct (outside_expiry read write w Hw) as [tr Htr].
  by rewrite configuration_outside, Htr.
Qed.

Lemma socket_expiry read write w :
  (∀ ch v, outside (write ch v) = outside v) →
  Client.socket (this (expiry read write w).2) = Client.socket (this w).
Proof.
  intros Hw. destruct (outside_expiry read write w Hw) as [tr Htr].
  by rewrite socket_outside, Htr.
Qed.

Lemma outside_write_own key ch v : outside (with_channels (insert key ch) v) = outside v.
Proof. done. Qed.

Lemma outside_write_proto ch v : outside (with_proto (λ _, Some ch) v) = outside v.
Proof. done. Qed.

Lemma outside_write_orphan i ch v :
  outside (set_orphans (<[i := ch]> (orphans v)) v) = outside v.
Proof. done. Qed.

(** No call changes the configuration. *)
Lemma configuration_call c w : configuration (call c w).2 = configuration w.
Proof.
  destruct c; cbn [call]; rewrite ?void_snd.
  - rewrite subscribe_eq. case_decide; [|done]. cbn [snd].
    by rewrite configuration_outside, outside_subscribed.
  - rewrite unsubscribe_eq. case_decide; [|done]. cbn [snd].
    by rewrite configuration_outside, outside_updated.
  - rewrite use_eq. by destruct (adapter_of w).
  - js_unfold. by destruct (error_listener w).
  - by rewrite handleConnect_eq.
  - done.
  - rewrite send_eq. case_decide; [|done]. cbn [snd].
    by rewrite configuration_outside, outside_mutated, outside_subscribed.
  - rewrite sendOnce_eq. case_decide; [|done]. cbn [snd].
    by rewrite configuration_outside, outside_mutated, outside_subscribed.
  - rewrite sendNow_eq. case_decide; [|done].
    destruct (encoder_of _); [destruct (adapter_of _)|]; cbn [snd];
      change (configuration (set_trace ?t ?v)) with (configuration v);
      by rewrite configuration_outside, outside_subscribed.
  - rewrite handleRequest_eq. destruct (encoder_of w); [|done].
    destruct (_ && _); [|done]. by case_decide.
  - rewrite destroy_eq. by destruct (adapter_of w).
  - by apply configuration_expiry.
  - by apply configuration_expiry.
  - by apply configuration_expiry.
  - done.
  - done.
Qed.

(** X7.  No method assigns the identity, the options, the origin flag or the
    tick of a client: over any calls whatever they are what the constructor
    set.  The adapter and encoder names in particular cannot be changed on a
    live client. *)
Theorem configuration_fixed calls w :
  configuration (run calls w) = configuration w.
Proof.
  revert w. induction calls as [|c calls IH]; intros w; [done|].
  simpl. by rewrite IH, configuration_call.
Qed.

(** A call other than [use] keeps the socket or clears it. *)
Lemma socket_call c w :
  ¬ is_use c →
  Client.socket (this (call c w).2) = Client.socket (this w)
  ∨ Client.socket (this (call c w).2) = None.
Proof.
  intros Hc. destruct c; cbn [call is_use] in *; rewrite ?void_snd.
  - left. rewrite subscribe_eq. case_decide; [|done]. cbn [snd].
    by rewrite socket_outside, outside_subscribed.
  - left. rewrite unsubscribe_eq. case_decide; [|done]. cbn [snd].
    by rewrite socket_outside, outside_updated.
  - done.
  - left. js_unfold. by destruct (error_listener w).
  - left. by rewrite handleConnect_eq.
  - by right.
  - left. rewrite send_eq. case_decide; [|done]. cbn [snd].
    by rewrite socket_outside, outside_mutated, outside_subscribed.
  - left. rewrite sendOnce_eq. case_decide; [|done]. cbn [snd].
    by rewrite socket_outside, outside_mutated, outside_subscribed.
  - left. rewrite sendNow_eq. case_decide; [|done].
    destruct (encoder_of _); [destruct (adapter_of _)|]; cbn [snd];
      change (Client.socket (this (set_trace ?t ?v))) with (Client.socket (this v));
      by rewrite socket_outside, outside_subscribed.
  - left. rewrite handleRequest_eq. destruct (encoder_of w); [|done].
    destruct (_ && _); [|done]. by case_decide.
  - rewrite destroy_eq. destruct (adapter_of w); [by right|by left].
  - left. by apply socket_expiry.
  - left. by apply socket_expiry.
  - left. by apply socket_expiry.
  - by left.
  - by left.
Qed.

(** X4.  Only use gives the client a socket: over any calls none of which is
    use, the socket is the one the client had or none at all.  handleConnect
    in particular does not keep the socket it is handed. *)
Theorem socket_only_from_use calls w :
  Forall (λ c, ¬ is_use c) calls →
  Client.socket (this (run calls w)) = Client.socket (this w)
  ∨ Client.socket (this (run calls w)) = None.
Proof.
  intros Hcalls. revert w.
  induction Hcalls as [|c calls Hc _ IH]; intros w; [by left|].
  simpl. destruct (IH (call c w).2) as [->| ->]; [|by right].
  by apply socket_call.
Qed.

Lemma socket_only_from_use_run :
  Client.socket
    (this (run [HandleDisconnect; HandleConnect 41%nat; Send (JStr "c") (JInt 1); Timer "c"]
             Sample.fresh)) = None.
Proof.
  assert (Hcalls : Forall (λ c, ¬ is_use c)
    [HandleDisconnect; HandleConnect 41%nat; Send (JStr "c") (JInt 1); Timer "c"])
    by (repeat constructor; simpl; tauto).
  destruct (socket_only_from_use _ Sample.fresh Hcalls) as [H|H]; [|exact H].
  exfalso. revert H. vm_compute. discriminate.
Defined.

(** ** Channel objects keep their identity *)

Lemma distinct_same w w' :
  Client.channels (this w') = Client.channels (this w) →
  allocated w' = allocated w →
  distinct_channels w → distinct_channels w'.
Proof. unfold distinct_channels. by intros -> ->. Qed.

Lemma distinct_created key opts w :
  distinct_channels w → distinct_channels (created key opts w).
Proof.
  intros [Hid Hinj]. unfold created, assigned.
  destruct (Client.channels (this w) !! key) eqn:E; [done|].
  cbn [this set_allocated]. rewrite E. case_decide as Hk.
  { split; simpl; [|done]. intros k ch Hch. destruct (Hid k ch Hch). split; [lia|done]. }
  split; simpl.
  - intros k ch. rewrite lookup_insert. case_decide.
    + intros [= <-]. simpl. split; [lia|done].
    + intros Hc. destruct (Hid k ch Hc). split; [lia|done].
  - intros k1 k2 c1 c2. rewrite !lookup_insert.
    repeat case_decide; subst.
    + done.
    + intros [= <-] H2 Heq. simpl in Heq. destruct (Hid _ _ H2). lia.
    + intros H1 [= <-] Heq. simpl in Heq. destruct (Hid _ _ H1). lia.
    + apply Hinj.
Qed.


Lemma distinct_updated key (f : Channel.t -> Channel.t) w :
  (∀ ch, Channel.id (f ch) = Channel.id ch ∧ Channel.name (f ch) = Channel.name ch) →
  distinct_channels w → distinct_channels (updated key f w).
Proof.
  intros Hf [Hid Hinj]. unfold updated.
  destruct (Client.channels (this w) !! key) as [c|] eqn:E; [|done].
  split; simpl.
  - intros k ch. rewrite lookup_insert. case_decide; [|apply Hid].
    subst k. intros [= <-]. destruct (Hf c) as [-> ->]. by apply Hid.
  - intros k1 k2 c1 c2. rewrite !lookup_insert.
    repeat case_decide; subst; try done.
    + intros [= <-] H2. destruct (Hf c) as [-> _]. by apply Hinj.
    + intros H1 [= <-]. destruct (Hf c) as [-> _]. by apply Hinj.
    + apply Hinj.
Qed.

Lemma allocated_updated key method w : allocated (updated key method w) = allocated w.
Proof. unfold updated. by destruct (Client.channels (this w) !! key). Qed.

Lemma allocated_mutated key method w : allocated (mutated key method w) = allocated w.
Proof.
  unfold mutated. destruct (Client.channels (this w) !! key); [done|]. by case_decide.
Qed.

Lemma distinct_mutated key (f : Channel.t -> Channel.t) w :
  (∀ ch, Channel.id (f ch) = Channel.id ch ∧ Channel.name (f ch) = Channel.name ch) →
  distinct_channels w → distinct_channels (mutated key f w).
Proof.
  intros Hf Hw.
  apply (distinct_same (updated key f w)).
  - apply mutated_own.
  - by rewrite allocated_mutated, allocated_updated.
  - by apply distinct_updated.
Qed.

Lemma addHandler_same fn ch :
  Channel.id (Channel.addHandler fn ch) = Channel.id ch
  ∧ Channel.name (Channel.addHandler fn ch) = Channel.name ch.
Proof. unfold Channel.addHandler. by case_decide. Qed.

Lemma distinct_subscribed name handler opts w :
  distinct_channels w → distinct_channels (subscribed name handler opts w).
Proof.
  intros Hw. unfold subscribed. destruct handler.
  - apply distinct_mutated; [apply addHandler_same|]. by apply distinct_created.
  - by apply distinct_created.
Qed.


(** A timer of a Channel that is no own property of the table changes
    neither the table nor the count of Channel objects. *)
Lemma table_expiry read write w :
  (∀ ch v, Client.channels (this (write ch v)) = Client.channels (this v)
           ∧ allocated (write ch v) = allocated v) →
  Client.channels (this (expiry read write w).2) = Client.channels (this w)
  ∧ allocated (expiry read write w).2 = allocated w.
Proof.
  intros Hw. rewrite expiry_eq.
  destruct (read w) as [ch|]; [|done].
  destruct (Channel.timer ch); [|done].
  destruct (Channel.pending ch); [|apply Hw].
  destruct (encoder_of _); [destruct (adapter_of _)|]; cbn [snd]; try apply Hw.
  destruct (Hw (Channel.set_packets [] (Channel.resetBundler ch))
    (set_trace
       (trace (write (Channel.resetBundler ch) w)
        ++ emitted e (JStr (Channel.name ch)) (Channel.packets ch)
             (write (Channel.resetBundler ch) w))
       (write (Channel.resetBundler ch) w))) as [-> ->].
  apply (Hw (Channel.resetBundler ch) w).
Qed.



(** ** Construction *)

Lemma subscribe_all_cons c handler rest w :
  subscribe_all ((c, handler) :: rest) w =
  if decide (guarded w)
  then subscribe_all rest (subscribed (JStr c) handler ∅ w)
  else (Throw TypeError, w).
Proof.
  cbn [subscribe_all]. unfold bind at 1. rewrite subscribe_eq. by case_decide.
Qed.

Lemma subscribe_all_distinct chans w :
  distinct_channels w → distinct_channels (subscribe_all chans w).2.
Proof.
  revert w. induction chans as [|[c handler] rest IH]; intros w Hw; [done|].
  rewrite subscribe_all_cons. case_decide; [|done]. by apply IH, distinct_subscribed.
Qed.

Lemma subscribe_all_outside chans w : outside (subscribe_all chans w).2 = outside w.
Proof.
  revert w. induction chans as [|[c handler] rest IH]; intros w; [done|].
  rewrite subscribe_all_cons. case_decide; [|done]. by rewrite IH, outside_subscribed.
Qed.

(** The only exception the subscriptions of the constructor raise. *)
Lemma subscribe_all_outcome chans w :
  (subscribe_all chans w).1 = Return tt ∨ (subscribe_all chans w).1 = Throw TypeError.
Proof.
  revert w. induction chans as [|[c handler] rest IH]; intros w; [by left|].
  rewrite subscribe_all_cons. case_decide; [apply IH|by right].
Qed.

Lemma set_socket_id w :
  Client.socket (this w) = None →
  set_this (Client.set_socket None (this w)) w = w.
Proof. destruct w as [[] ? ? ? ? ? ?]. simpl. by intros ->. Qed.

Lemma socket_populated defaults id opts w :
  Client.socket (this (populated defaults id opts w).2) = None.
Proof. unfold populated. by rewrite socket_outside, subscribe_all_outside. Qed.

Lemma constructor_eq defaults id opts socket w :
  constructor defaults id opts socket w =
  match (populated defaults id opts w).1 with
  | Return _ =>
      match adapter_of (populated defaults id opts w).2 with
      | Some a => (Return (this (attached a socket (populated defaults id opts w).2)),
                   attached a socket (populated defaults id opts w).2)
      | None => (Throw TypeError, (populated defaults id opts w).2)
      end
  | Throw e => (Throw e, (populated defaults id opts w).2)
  end.
Proof.
  unfold constructor. unfold bind at 1, modify at 1.
  assert (Hp : match arg.channels opts with
               | Some chans => subscribe_all chans
               | None => ret tt
               end (configured defaults id opts w)
               = populated defaults id opts w).
  { unfold populated. by destruct (arg.channels opts). }
  unfold bind at 1. rewrite Hp.
  pose proof (socket_populated defaults id opts w) as Hs.
  destruct (populated defaults id opts w) as [[[]|e] w1]; [|done].
  cbn [fst snd] in *.
  unfold bind at 1, modify at 1. rewrite set_socket_id by done.
  unfold bind at 1. rewrite use_eq. by destruct (adapter_of w1).
Qed.

Lemma distinct_populated defaults id opts w :
  distinct_channels (populated defaults id opts w).2.
Proof. unfold populated. apply subscribe_all_distinct. by split. Qed.

Lemma distinct_constructed defaults id opts socket w :
  distinct_channels (constructor defaults id opts socket w).2.
Proof.
  rewrite constructor_eq.
  pose proof (distinct_populated defaults id opts w).
  destruct (populated defaults id opts w).1; [|done].
  by destruct (adapter_of _).
Qed.


(** * The statements of the specification *)

(** ** The guard of subscribe and the channel named hasOwnProperty *)

Lemma guarded_subscribed name handler opts w :
  guarded w → toString name ≠ "hasOwnProperty" →
  guarded (subscribed name handler opts w).
Proof.
  intros Hg Hn. unfold subscribed.
  destruct handler; [apply guarded_mutated|]; by apply guarded_created.
Qed.

Lemma unguarded_mutated key method w : ¬ guarded w → ¬ guarded (mutated key method w).
Proof.
  unfold guarded. intros Hg Hm. apply Hg.
  destruct (decide (key = "hasOwnProperty")) as [->|Hne].
  - rewrite mutated_lookup in Hm. by destruct (Client.channels (this w) !! "hasOwnProperty").
  - by rewrite mutated_lookup_ne in Hm.
Qed.

Lemma unguarded_subscribed name handler opts w :
  toString name = "hasOwnProperty" → ¬ guarded (subscribed name handler opts w).
Proof.
  intros Hn Hg. unfold guarded in Hg.
  destruct (subscribed_lookup name handler opts w) as [ch Hch]; [by rewrite Hn|].
  rewrite Hn in Hch. by rewrite Hch in Hg.
Qed.

(** Own properties are never removed. *)
Lemma created_keeps key opts w k :
  is_Some (Client.channels (this w) !! k) →
  is_Some (Client.channels (this (created key opts w)) !! k).
Proof.
  intros Hk. destruct (decide (key = k)) as [->|Hne].
  - unfold created. destruct Hk as [ch Hch]. rewrite Hch. by rewrite Hch.
  - by rewrite created_lookup_ne.
Qed.

Lemma mutated_keeps key method w k :
  is_Some (Client.channels (this w) !! k) →
  is_Some (Client.channels (this (mutated key method w)) !! k).
Proof.
  intros Hk. destruct (decide (key = k)) as [->|Hne].
  - rewrite mutated_lookup. by apply fmap_is_Some.
  - by rewrite mutated_lookup_ne.
Qed.

Lemma subscribed_keeps name handler opts w k :
  is_Some (Client.channels (this w) !! k) →
  is_Some (Client.channels (this (subscribed name handler opts w)) !! k).
Proof.
  intros Hk. unfold subscribed.
  destruct handler; [apply mutated_keeps|]; by apply created_keeps.
Qed.

(** The loop of the constructor over [options.channels], when no key of it
    is [hasOwnProperty]: every subscribe returns. *)
Lemma subscribe_all_returns chans w :
  guarded w →
  Forall (λ ch, ch.1 ≠ "hasOwnProperty") chans →
  (subscribe_all chans w).1 = Return tt
  ∧ guarded (subscribe_all chans w).2
  ∧ (∀ k, is_Some (Client.channels (this w) !! k) →
          is_Some (Client.channels (this (subscribe_all chans w).2) !! k))
  ∧ (∀ k, k ∈ chans.*1 → k ≠ "__proto__" →
          is_Some (Client.channels (this (subscribe_all chans w).2) !! k)).
Proof.
  revert w. induction chans as [|[c h] rest IH]; intros w Hg Hall.
  { repeat split; try done. intros k Hk. by apply elem_of_nil in Hk. }
  apply Forall_cons in Hall as [Hc Hall]. cbn [fst] in Hc.
  rewrite subscribe_all_cons, decide_True by done.
  destruct (IH (subscribed (JStr c) h ∅ w)) as (Hr & Hg' & Hk & Hin);
    [by apply guarded_subscribed|done|].
  split; [done|]. split; [done|]. split.
  - intros k Hk0. by apply Hk, subscribed_keeps.
  - intros k Hel Hp. cbn [fmap list_fmap fst] in Hel.
    apply elem_of_cons in Hel as [->|Hel]; [|by apply Hin].
    apply Hk. by apply (subscribed_lookup (JStr c)).
Qed.

Lemma guarded_configured defaults id opts w : guarded (configured defaults id opts w).
Proof. done. Qed.

(** ** Construction does not validate *)

(** C1, as the specification has it, fails.  A client configured with an
    encoder name that nothing is registered under is constructed all the
    same, socket included, and the failure comes at the first frame; and with
    an unknown adapter name the constructor throws only after it has created
    the channels of its options. *)
Lemma construction_does_not_fail_fast :
  encoders.resolve (encoders_list Sample.boot) "msgpack" = None
  ∧ (∃ c, constructor Sample.defaults "a0c3" Sample.no_encoder_arg None Sample.boot
          = (Return c, Sample.no_encoder)
          ∧ options.encoder (Client.options c) = "msgpack"
          ∧ Client.socket c = Some 40%nat)
  ∧ trace Sample.no_encoder = [EvCreateSocket "tcp" None]
  ∧ (sendNow (JStr "x") (JInt 1) Sample.no_encoder).1 = Throw TypeError
  ∧ adapters.resolve (adapters_list Sample.boot) "ws" = adapters.Missing
  ∧ (∃ w', constructor Sample.defaults "77b2" Sample.no_adapter_arg None Sample.boot
           = (Throw TypeError, w')
           ∧ is_Some (Client.channels (this w') !! "a")).
Proof.
  split; [done|]. split.
  { eexists. split; [|split]; [vm_compute; reflexivity|done|done]. }
  split; [vm_compute; reflexivity|]. split; [vm_compute; reflexivity|].
  split; [vm_compute; reflexivity|].
  eexists. split; [vm_compute; reflexivity|].
  vm_compute. eexists. reflexivity.
Qed.

(** C1, as the code has it.  When no key of [options.channels] is
    [hasOwnProperty], the constructor first subscribes every channel of its
    options and only then, in use, looks the adapter name up: when the name
    resolves to no adapter, construction throws a TypeError there and the
    channels stand; when it resolves, construction returns the client with
    its socket, whatever the encoder name.  The encoder name is looked up
    only when a frame is encoded or decoded: on a client whose encoder name
    does not resolve, _emit, sendNow and handleRequest throw a TypeError. *)
Theorem constructor_resolves_late defaults id opts socket w :
  Forall (λ ch, ch.1 ≠ "hasOwnProperty") (default [] (arg.channels opts)) →
  let w0 := configured defaults id opts w in
  let w1 := (populated defaults id opts w).2 in
  (adapter_of w0 = None →
     constructor defaults id opts socket w = (Throw TypeError, w1))
  ∧ (∀ a, adapter_of w0 = Some a →
       constructor defaults id opts socket w
       = (Return (this (attached a socket w1)), attached a socket w1))
  ∧ (∀ k, k ∈ (default [] (arg.channels opts)).*1 → k ≠ "__proto__" →
       is_Some (Client.channels (this w1) !! k))
  ∧ (∀ c w', constructor defaults id opts socket w = (Return c, w') →
       encoder_of w' = None →
       (∀ channel pkts, (_emit channel pkts w').1 = Throw TypeError)
       ∧ (∀ name payload, (sendNow name payload w').1 = Throw TypeError)
       ∧ (∀ evt, (handleRequest evt w').1 = Throw TypeError)).
Proof.
  intros Hall. cbn zeta.
  destruct (subscribe_all_returns (default [] (arg.channels opts))
              (configured defaults id opts w) (guarded_configured _ _ _ _) Hall)
    as (Hr & _ & _ & Hin).
  assert (Ha : adapter_of (populated defaults id opts w).2
               = adapter_of (configured defaults id opts w)).
  { unfold populated. by rewrite adapter_of_outside, subscribe_all_outside,
      <- adapter_of_outside. }
  split; [|split; [|split]].
  - intros Hn. rewrite constructor_eq. unfold populated at 1. by rewrite Hr, Ha, Hn.
  - intros a Hs. rewrite constructor_eq. unfold populated at 1. by rewrite Hr, Ha, Hs.
  - exact Hin.
  - intros c w' _ He. split; [|split].
    + intros channel pkts. by rewrite emit_eq, He.
    + intros name payload. rewrite sendNow_eq. case_decide; [|done].
      rewrite encoder_of_subscribed, He. done.
    + intros evt. by rewrite handleRequest_eq, He.
Qed.

Lemma constructor_resolves_late_run :
  constructor Sample.defaults "77b2" Sample.no_adapter_arg None Sample.boot
  = (Throw TypeError, (populated Sample.defaults "77b2" Sample.no_adapter_arg Sample.boot).2)
  ∧ is_Some (Client.channels
      (this (populated Sample.defaults "77b2" Sample.no_adapter_arg Sample.boot).2) !! "a")
  ∧ (handleRequest [Byte.x01] Sample.no_encoder).1 = Throw TypeError.
Proof.
  assert (H1 : Forall (λ ch : string * option Handler, ch.1 ≠ "hasOwnProperty")
                 (default [] (arg.channels Sample.no_adapter_arg))).
  { repeat constructor. cbn. discriminate. }
  assert (H2 : Forall (λ ch : string * option Handler, ch.1 ≠ "hasOwnProperty")
                 (default [] (arg.channels Sample.no_encoder_arg))).
  { constructor. }
  destruct (constructor_resolves_late Sample.defaults "77b2" Sample.no_adapter_arg None
              Sample.boot H1) as (Hthrow & _ & Hch & _).
  split; [apply Hthrow; vm_compute; reflexivity|].
  split; [apply (Hch "a"); [vm_compute; left|discriminate]|].
  destruct (constructor_resolves_late Sample.defaults "a0c3" Sample.no_encoder_arg None
              Sample.boot H2) as (_ & _ & _ & Huse).
  eapply Huse; vm_compute; reflexivity.
Defined.

(** ** Once a channel is named hasOwnProperty *)

Lemma unguarded_sent (method : Channel.t -> Channel.t) name w :
  toString name = "hasOwnProperty" →
  ¬ guarded (mutated (toString name) method (subscribed name None ∅ w)).
Proof. intros Hn. by apply unguarded_mutated, unguarded_subscribed. Qed.

(** C2 fails on the channel named hasOwnProperty.  On a client that has no
    such channel yet, [sendOnce('hasOwnProperty', p1)] creates it, as an own
    property of the table that shadows the method the guard of subscribe
    calls; from then on every sendOnce, on any name, throws a TypeError at
    that guard and changes nothing: the queue of the channel keeps [p1], and
    that is what its timer sends on a client built with the defaults. *)
Theorem sendOnce_shadowed p1 w :
  guarded w →
  let w1 := (sendOnce (JStr "hasOwnProperty") p1 w).2 in
  pending "hasOwnProperty" w1 = [p1]
  ∧ armed "hasOwnProperty" w1 = true
  ∧ (∀ name p2, sendOnce name p2 w1 = (Throw TypeError, w1))
  ∧ trace (run [SendOnce (JStr "hasOwnProperty") (JInt 1);
                SendOnce (JStr "hasOwnProperty") (JInt 2);
                Timer "hasOwnProperty"] Sample.fresh)
    = [EvCreateSocket "tcp" None;
       EvSend "tcp" (Some 40%nat)
         (encoders.encode Sample.json (JStr "hasOwnProperty", [JInt 1]))].
Proof.
  intros Hg. cbn zeta. rewrite sendOnce_eq, decide_True by done. cbn [snd].
  split; [by rewrite pending_sentOnce, decide_True|].
  split.
  { rewrite armed_mutated, armed_updated, decide_True by done.
    destruct (subscribed_lookup (JStr "hasOwnProperty") None ∅ w) as [ch Hch]; [done|].
    cbn [toString] in Hch |- *. by rewrite Hch. }
  split; [|vm_compute; reflexivity].
  intros name p2. rewrite sendOnce_eq, decide_False; [done|].
  by apply (unguarded_sent (Channel.sendOnce p1) (JStr "hasOwnProperty")).
Qed.

Lemma sendOnce_shadowed_run :
  pending "hasOwnProperty"
    (sendOnce (JStr "hasOwnProperty") (JInt 2)
       (sendOnce (JStr "hasOwnProperty") (JInt 1) Sample.fresh).2).2 = [JInt 1]
  ∧ (sendOnce (JStr "hasOwnProperty") (JInt 2)
       (sendOnce (JStr "hasOwnProperty") (JInt 1) Sample.fresh).2).1 = Throw TypeError.
Proof.
  assert (Hg : guarded Sample.fresh) by (vm_compute; reflexivity).
  destruct (sendOnce_shadowed (JInt 1) Sample.fresh Hg) as (Hp & _ & Hthrow & _).
  rewrite (Hthrow (JStr "hasOwnProperty") (JInt 2)). cbn [fst snd]. by split.
Defined.

(** ** The channel named __proto__ *)

(** What subscribe leaves when [__proto__] is no own property of the table:
    the assignment goes to the setter of [Object.prototype], the Channel just
    constructed becomes the prototype of the table and whatever was the
    prototype is displaced. *)
Lemma subscribed_proto name handler opts w :
  toString name = "__proto__" →
  Client.channels (this w) !! "__proto__" = None →
  subscribed name handler opts w
  = with_proto
      (λ _, Some (attach handler
                    (Channel.new (allocated w) "__proto__"
                       (assign (options.bundler (Client.options (this w))) opts))))
      (set_orphans (orphans w ++ option_list (Client.proto (this w)))
         (set_allocated (S (allocated w)) w)).
Proof.
  intros Hn Hp. unfold subscribed, created, assigned, mutated. rewrite Hn.
  rewrite Hp. cbn [set_allocated this Client.channels]. rewrite Hp.
  rewrite decide_True by done.
  destruct handler; [|reflexivity].
  cbn [with_proto set_orphans set_allocated set_this this Client.set_proto
       Client.channels].
  rewrite Hp, decide_True by done. reflexivity.
Qed.

(** C4 fails on the name [__proto__].  On a client whose table has no own
    property of that name, each subscribe under it constructs a Channel: the
    second call makes a second object, with the options and the handler of
    the second call only, which replaces the first as what
    [channels['__proto__']] reads; the first is displaced with its handler.
    No name is added to the table. *)
Theorem subscribe_prototype_twice h1 o1 h2 o2 w :
  guarded w →
  Client.channels (this w) !! "__proto__" = None →
  let w1 := (subscribe (JStr "__proto__") h1 o1 w).2 in
  let w2 := (subscribe (JStr "__proto__") h2 o2 w1).2 in
  let c1 := attach h1 (Channel.new (allocated w) "__proto__"
                         (assign (options.bundler (Client.options (this w))) o1)) in
  let c2 := attach h2 (Channel.new (S (allocated w)) "__proto__"
                         (assign (options.bundler (Client.options (this w))) o2)) in
  channel_at "__proto__" (this w1) = Some c1
  ∧ channel_at "__proto__" (this w2) = Some c2
  ∧ Channel.id c1 ≠ Channel.id c2
  ∧ allocated w2 = S (S (allocated w))
  ∧ orphans w2 = (orphans w ++ option_list (Client.proto (this w))) ++ [c1]
  ∧ Client.channels (this w2) = Client.channels (this w).
Proof.
  intros Hg Hp. cbn zeta.
  rewrite (subscribe_eq _ h1), decide_True by done. cbn [snd].
  rewrite (subscribed_proto _ h1) by done.
  rewrite subscribe_eq, decide_True by done. cbn [snd].
  rewrite subscribed_proto by done.
  unfold channel_at. cbn [with_proto set_orphans set_allocated set_this this
    Client.set_proto Client.channels Client.proto allocated orphans option_list].
  rewrite Hp, decide_True by done.
  repeat split; try done.
  destruct h1, h2; cbn; unfold Channel.addHandler; repeat case_decide; cbn; lia.
Qed.

Lemma subscribe_prototype_twice_run :
  allocated
    (subscribe (JStr "__proto__") (Some 2%nat) ∅
       (subscribe (JStr "__proto__") (Some 1%nat) ∅ Sample.fresh).2).2 = 2%nat
  ∧ (Channel.handlers <$>
       channel_at "__proto__"
         (this (subscribe (JStr "__proto__") (Some 2%nat) ∅
                  (subscribe (JStr "__proto__") (Some 1%nat) ∅ Sample.fresh).2).2))
    = Some [2%nat].
Proof.
  assert (Hg : guarded Sample.fresh) by (vm_compute; reflexivity).
  assert (Hp : Client.channels (this Sample.fresh) !! "__proto__" = None)
    by (vm_compute; reflexivity).
  destruct (subscribe_prototype_twice (Some 1%nat) ∅ (Some 2%nat) ∅ Sample.fresh Hg Hp)
    as (_ & H2 & _ & Ha & _).
  split; [rewrite Ha; vm_compute; reflexivity|].
  rewrite H2. vm_compute. reflexivity.
Defined.

Lemma sent_proto (method : Channel.t -> Channel.t) name w :
  toString name = "__proto__" →
  Client.channels (this w) !! "__proto__" = None →
  mutated (toString name) method (subscribed name None ∅ w)
  = with_proto
      (λ _, Some (method
                    (Channel.new (allocated w) "__proto__"
                       (assign (options.bundler (Client.options (this w))) ∅))))
      (set_orphans (orphans w ++ option_list (Client.proto (this w)))
         (set_allocated (S (allocated w)) w)).
Proof.
  intros Hn Hp. rewrite subscribed_proto by done. rewrite Hn. unfold mutated.
  cbn [with_proto set_orphans set_allocated set_this this Client.set_proto
       Client.channels].
  rewrite Hp, decide_True by done. reflexivity.
Qed.

(** C5 fails once a channel is named hasOwnProperty: on such a client
    sendNow, on any name, throws a TypeError at the guard of subscribe and
    hands nothing to the encoder or the adapter; the world is as it was.  And
    under the name [__proto__] sendNow does touch the queue: after
    [send('__proto__', 1)] the queue read under that name holds the packet,
    after [sendNow('__proto__', 2)] it is the empty queue of a new Channel. *)
Theorem sendNow_shadowed name payload w :
  ¬ guarded w →
  sendNow name payload w = (Throw TypeError, w)
  ∧ Channel.packets <$>
      channel_at "__proto__" (this (send (JStr "__proto__") (JInt 1) Sample.fresh).2)
    = Some [JInt 1]
  ∧ Channel.packets <$>
      channel_at "__proto__"
        (this (sendNow (JStr "__proto__") (JInt 2)
                 (send (JStr "__proto__") (JInt 1) Sample.fresh).2).2)
    = Some [].
Proof.
  intros Hg. split; [by rewrite sendNow_eq, decide_False|].
  split; vm_compute; reflexivity.
Qed.

Lemma sendNow_shadowed_run :
  sendNow (JStr "x") (JInt 2) Sample.shadowed = (Throw TypeError, Sample.shadowed)
  ∧ trace Sample.shadowed = [EvCreateSocket "tcp" None].
Proof.
  split; [|vm_compute; reflexivity].
  apply (sendNow_shadowed (JStr "x") (JInt 2) Sample.shadowed).
  vm_compute. discriminate.
Defined.

(** C9 fails once a channel is named hasOwnProperty: on such a client
    unsubscribe throws a TypeError at its guard, whether or not the name it
    is given is the name of a channel. *)
Theorem unsubscribe_shadowed name handler w :
  ¬ guarded w → unsubscribe name handler w = (Throw TypeError, w).
Proof. intros Hg. by rewrite unsubscribe_eq, decide_False. Qed.

Lemma unsubscribe_shadowed_run :
  Client.channels (this Sample.shadowed) !! "y" = None
  ∧ unsubscribe (JStr "y") 3%nat Sample.shadowed = (Throw TypeError, Sample.shadowed).
Proof.
  split; [vm_compute; reflexivity|].
  apply (unsubscribe_shadowed (JStr "y") 3%nat Sample.shadowed).
  vm_compute. discriminate.
Defined.

(** C10 fails on the names whose string is [__proto__].  On a client whose
    table has no own property of that name, two sends under two such names
    do not share a queue: each constructs a Channel, the second packet is
    alone in the queue read under the name afterwards, and the first packet
    sits in the queue of the Channel that was displaced. *)
Theorem names_apart n1 n2 p q w :
  toString n1 = "__proto__" →
  toString n2 = "__proto__" →
  guarded w →
  Client.channels (this w) !! "__proto__" = None →
  let w2 := (send n2 q (send n1 p w).2).2 in
  let options := assign (options.bundler (Client.options (this w))) ∅ in
  channel_at "__proto__" (this w2)
  = Some (Channel.send q (Channel.new (S (allocated w)) "__proto__" options))
  ∧ orphans w2
    = (orphans w ++ option_list (Client.proto (this w)))
      ++ [Channel.send p (Channel.new (allocated w) "__proto__" options)]
  ∧ Client.channels (this w2) = Client.channels (this w).
Proof.
  intros H1 H2 Hg Hp. cbn zeta.
  rewrite (send_eq n1), decide_True by done. cbn [snd].
  rewrite (sent_proto _ n1) by done.
  rewrite send_eq, decide_True by done. cbn [snd].
  rewrite sent_proto by done.
  unfold channel_at.
  cbn [with_proto set_orphans set_allocated set_this this Client.set_proto
       Client.channels Client.proto allocated orphans option_list Client.options].
  rewrite Hp, decide_True by done. done.
Qed.

Lemma names_apart_run :
  Channel.packets <$>
    channel_at "__proto__"
      (this (send (JArr [JStr "__proto__"]) (JStr "b")
               (send (JStr "__proto__") (JStr "a") Sample.fresh).2).2)
  = Some [JStr "b"]
  ∧ Channel.packets <$>
      orphans (send (JArr [JStr "__proto__"]) (JStr "b")
                 (send (JStr "__proto__") (JStr "a") Sample.fresh).2).2
    = [[JStr "a"]].
Proof.
  assert (Hg : guarded Sample.fresh) by (vm_compute; reflexivity).
  assert (Hp : Client.channels (this Sample.fresh) !! "__proto__" = None)
    by (vm_compute; reflexivity).
  destruct (names_apart (JStr "__proto__") (JArr [JStr "__proto__"]) (JStr "a") (JStr "b")
              Sample.fresh eq_refl eq_refl Hg Hp) as (Hc & Ho & _).
  rewrite Hc, Ho. split; vm_compute; reflexivity.
Defined.

(** ** The send family returns the client, or throws *)

(** C7, as the specification has it, fails: sendNow throws on a client whose
    encoder name nothing is registered under, a client the constructor
    returned without complaint. *)
Lemma sendNow_throws :
  (constructor Sample.defaults "a0c3" Sample.no_encoder_arg None Sample.boot).1
  = Return (this Sample.no_encoder)
  ∧ sendNow (JStr "x") (JInt 1) Sample.no_encoder
    = (Throw TypeError, subscribed (JStr "x") None ∅ Sample.no_encoder).
Proof. split; vm_compute; reflexivity. Qed.

(** C7, as the code has it.  On a client that has no channel named
    hasOwnProperty, send and sendOnce return the client for every name and
    payload.  sendNow returns the client when the encoder name and the
    adapter name of the client both resolve; when either does not, it throws
    a TypeError, the channel having been subscribed. *)
Theorem send_family_returns name payload w :
  guarded w →
  (∃ w', send name payload w = (Return (this w'), w'))
  ∧ (∃ w', sendOnce name payload w = (Return (this w'), w'))
  ∧ (is_Some (encoder_of w) → is_Some (adapter_of w) →
       ∃ w', sendNow name payload w = (Return (this w'), w'))
  ∧ (encoder_of w = None ∨ adapter_of w = None →
       sendNow name payload w = (Throw TypeError, subscribed name None ∅ w)).
Proof.
  intros Hg.
  split; [rewrite send_eq, decide_True by done; by eexists|].
  split; [rewrite sendOnce_eq, decide_True by done; by eexists|].
  rewrite sendNow_eq, decide_True by done.
  rewrite encoder_of_subscribed, adapter_of_subscribed.
  split.
  - intros [e ->] [a ->]. refine (ex_intro _ (set_trace _ _) _). reflexivity.
  - intros [-> | ->]; [done|]. by destruct (encoder_of w).
Qed.

Lemma send_family_returns_run :
  (∃ w', sendNow (JInt 4) (JStr "now") Sample.fresh = (Return (this w'), w'))
  ∧ sendNow (JInt 4) (JStr "now") Sample.no_encoder
    = (Throw TypeError, subscribed (JInt 4) None ∅ Sample.no_encoder).
Proof.
  split.
  - apply (send_family_returns (JInt 4) (JStr "now") Sample.fresh);
      [vm_compute; reflexivity|vm_compute; eexists; reflexivity..].
  - apply (send_family_returns (JInt 4) (JStr "now") Sample.no_encoder).
    + vm_compute; reflexivity.
    + left. vm_compute. reflexivity.
Defined.

(** ** The loops over the table *)

(** C3 fails for a Channel that is the prototype of the table, which is
    where [send('__proto__', p)] puts the channel of that name.  The loop of
    handleConnect is a [for ... in] over the table: it visits the own
    properties and never the prototype itself, so a Channel kept there is
    left as it is, whatever it has pending and whether or not its timer is
    armed; and unless an own property shadows it, the loop then meets the
    [name] field of that Channel, on which it throws a TypeError. *)
Theorem handleConnect_skips_prototype socket w ch :
  Client.proto (this w) = Some ch →
  Client.proto (this (handleConnect socket w).2) = Some ch
  ∧ (Client.channels (this w) !! "name" = None →
     (handleConnect socket w).1 = Throw TypeError).
Proof.
  intros Hp. rewrite handleConnect_eq. cbn [fst snd]. split; [exact Hp|].
  intros Hn. rewrite Hp. unfold inherited. rewrite Hp.
  unfold Channel.fields. rewrite filter_cons_True by exact Hn. reflexivity.
Qed.

(** On a client whose encoder name does not resolve, [send('__proto__', 1)]
    queues the packet on a Channel that becomes the prototype, and the expiry
    of its timer throws and leaves the packet queued with the timer idle;
    handleConnect then throws and the Channel is still idle with its
    packet. *)
Lemma handleConnect_skips_prototype_run :
  Client.proto (this (run [Send (JStr "__proto__") (JInt 1); TimerProto] Sample.no_encoder))
  = Some (Channel.mk 0 "__proto__" {["every" := 16]} [JInt 1] [] false)
  ∧ Client.proto
      (this (handleConnect 41%nat
               (run [Send (JStr "__proto__") (JInt 1); TimerProto] Sample.no_encoder)).2)
    = Some (Channel.mk 0 "__proto__" {["every" := 16]} [JInt 1] [] false)
  ∧ (handleConnect 41%nat
       (run [Send (JStr "__proto__") (JInt 1); TimerProto] Sample.no_encoder)).1
    = Throw TypeError.
Proof.
  assert (Hr : Client.proto (this (run [Send (JStr "__proto__") (JInt 1); TimerProto]
                                     Sample.no_encoder))
               = Some (Channel.mk 0 "__proto__" {["every" := 16]} [JInt 1] [] false)).
  { vm_compute. reflexivity. }
  destruct (handleConnect_skips_prototype 41%nat _ _ Hr) as [Hs Ht].
  split; [exact Hr|]. split; [exact Hs|].
  apply Ht. vm_compute. reflexivity.
Defined.

(** C8 fails for a Channel that is the prototype of the table, which is
    where [send('__proto__', p)] puts the channel of that name.  The loop of
    destroy, too, is a [for ... in] over the table and never visits the
    prototype: destroy leaves a Channel kept there as it is, its timer armed
    if it was.  With the adapter name resolving, destroy calls the adapter's
    disconnect and clears the socket, then throws a TypeError in its loop
    (on the [name] field of that Channel, unless an own property shadows
    it); and when the timer that was left armed expires, with the encoder
    name resolving, the queue of the Channel is sent. *)
Theorem destroy_skips_prototype w ch :
  Client.proto (this w) = Some ch →
  Client.proto (this (destroy w).2) = Some ch
  ∧ (is_Some (adapter_of w) →
       Client.socket (this (destroy w).2) = None
       ∧ (Client.channels (this w) !! "name" = None → (destroy w).1 = Throw TypeError)
       ∧ (∀ e, Channel.timer ch = true → Channel.pending ch = true →
            encoder_of w = Some e →
            trace (proto_expiry (destroy w).2).2
            = trace w
              ++ EvDisconnect (options.adapter (Client.options (this w)))
                   (Client.socket (this w))
                 :: emitted e (JStr (Channel.name ch)) (Channel.packets ch) (destroyed w))).
Proof.
  intros Hp. rewrite destroy_eq. split.
  { by destruct (adapter_of w). }
  intros [a Ha]. rewrite Ha. cbn [fst snd]. split; [done|]. split.
  - intros Hn. unfold inherited. rewrite Hp. unfold Channel.fields.
    rewrite filter_cons_True by exact Hn. reflexivity.
  - intros e Ht Hq He. unfold proto_expiry. rewrite expiry_eq.
    assert (Hpd : Client.proto (this (destroyed w)) = Some ch) by exact Hp.
    rewrite Hpd, Ht, Hq.
    rewrite (encoder_of_outside (with_proto _ _)), (adapter_of_outside (with_proto _ _)),
      outside_write_proto, <- encoder_of_outside, <- adapter_of_outside.
    change (encoder_of (destroyed w)) with (encoder_of w).
    change (adapter_of (destroyed w)) with (adapter_of w).
    rewrite He, Ha. cbn [snd].
    rewrite (emitted_outside _ _ _ (with_proto _ _)), outside_write_proto,
      <- emitted_outside.
    cbn. by rewrite <- app_assoc.
Qed.

(** After [send('__proto__', 1)] on a client built with the defaults,
    destroy throws once the socket is cleared, the timer of the channel is
    still armed, and its expiry sends the packet. *)
Lemma destroy_skips_prototype_run :
  (destroy (send (JStr "__proto__") (JInt 1) Sample.fresh).2).1 = Throw TypeError
  ∧ Client.socket (this (destroy (send (JStr "__proto__") (JInt 1) Sample.fresh).2).2)
    = None
  ∧ Client.proto (this (destroy (send (JStr "__proto__") (JInt 1) Sample.fresh).2).2)
    = Some (Channel.mk 0 "__proto__" {["every" := 16]} [JInt 1] [] true)
  ∧ trace (run [Send (JStr "__proto__") (JInt 1); Destroy; TimerProto] Sample.fresh)
    = [EvCreateSocket "tcp" None; EvDisconnect "tcp" (Some 40%nat);
       EvSend "tcp" None (encoders.encode Sample.json (JStr "__proto__", [JInt 1]))].
Proof.
  assert (Hp : Client.proto (this (send (JStr "__proto__") (JInt 1) Sample.fresh).2)
               = Some (Channel.mk 0 "__proto__" {["every" := 16]} [JInt 1] [] true)).
  { vm_compute. reflexivity. }
  destruct (destroy_skips_prototype _ _ Hp) as [Hs Ha].
  destruct Ha as (Hsock & Hthrow & Hfire); [vm_compute; eexists; reflexivity|].
  split; [apply Hthrow; vm_compute; reflexivity|].
  split; [exact Hsock|]. split; [exact Hs|].
  change (run [Send (JStr "__proto__") (JInt 1); Destroy; TimerProto] Sample.fresh)
    with (proto_expiry (destroy (send (JStr "__proto__") (JInt 1) Sample.fresh).2).2).2.
  rewrite (Hfire Sample.json); [|reflexivity|reflexivity|vm_compute; reflexivity].
  vm_compute. reflexivity.
Defined.

(** ** handleRequest routes or drops *)




(** * Further properties of the client *)

(** ** The adapter registry *)

Lemma resolve_get list name : adapters.resolve list name = adapters.get list name.
Proof. unfold adapters.resolve. by destruct (adapters.get list name). Qed.

Lemma resolve_register name mod_ list :
  adapters.resolve (adapters.register name mod_ list) name = adapters.Registered mod_.
Proof.
  rewrite resolve_get. unfold adapters.get, adapters.register.
  destruct (adapters.own list !! name) eqn:E; simpl.
  - by rewrite lookup_insert_eq.
  - destruct (decide (name = "__proto__")) as [->|Hn]; cbn [adapters.own adapters.proto].
    + by rewrite E.
    + by rewrite lookup_insert_eq.
Qed.

(** X1.  A module registered under a name is what resolve returns for that
    name, whatever the name; registering again replaces it; registering
    under a name other than [__proto__] leaves every other name as it
    resolved.  In the registry the module starts with, ipc, tcp and udp
    resolve to their modules, [__proto__] and the names of the methods of
    [Object.prototype] resolve to values that are no adapter, and every other
    name is undefined. *)
Theorem register_resolve name mod_ (list : adapters.List) :
  adapters.resolve (adapters.register name mod_ list) name = adapters.Registered mod_
  ∧ (∀ mod', adapters.resolve
               (adapters.register name mod' (adapters.register name mod_ list)) name
             = adapters.Registered mod')
  ∧ (name ≠ "__proto__" → ∀ other, other ≠ name →
       adapters.resolve (adapters.register name mod_ list) other
       = adapters.resolve list other)
  ∧ (∀ ipc tcp udp n,
       adapters.resolve (adapters.initial ipc tcp udp) n =
       if decide (n = "udp") then adapters.Registered udp
       else if decide (n = "tcp") then adapters.Registered tcp
       else if decide (n = "ipc") then adapters.Registered ipc
       else if decide (n = "__proto__" ∨ n ∈ Object_prototype) then adapters.Inherited
       else adapters.Missing).
Proof.
  split; [apply resolve_register|]. split; [intros; apply resolve_register|]. split.
  - intros Hn other Ho. rewrite !resolve_get. unfold adapters.get, adapters.register.
    destruct (adapters.own list !! name) eqn:E; simpl.
    + by rewrite lookup_insert_ne.
    + rewrite decide_False by done. simpl. by rewrite lookup_insert_ne.
  - intros ipc tcp udp n. rewrite resolve_get. unfold adapters.get, adapters.initial.
    cbn [adapters.own adapters.proto].
    destruct (decide (n = "udp")) as [->|Hu]; [by rewrite lookup_insert_eq|].
    rewrite lookup_insert_ne by done.
    destruct (decide (n = "tcp")) as [->|Ht]; [by rewrite lookup_insert_eq|].
    rewrite lookup_insert_ne by done.
    destruct (decide (n = "ipc")) as [->|Hi]; [by rewrite lookup_insert_eq|].
    rewrite lookup_insert_ne, lookup_empty by done.
    destruct (decide (n = "__proto__")) as [->|Hp].
    + by rewrite decide_True by (by left).
    + destruct (decide (n ∈ Object_prototype)) as [Hin|Hin].
      * by rewrite decide_True by (by right).
      * rewrite decide_False; [done|]. by intros [?|?].
Qed.

Lemma register_resolve_run :
  adapters.resolve
    (adapters.register "ws" Sample.udp (adapters.initial Sample.ipc Sample.tcp Sample.udp))
    "tcp" = adapters.Registered Sample.tcp
  ∧ adapters.resolve (adapters.initial Sample.ipc Sample.tcp Sample.udp) "ws"
    = adapters.Missing
  ∧ adapters.resolve (adapters.initial Sample.ipc Sample.tcp Sample.udp) "constructor"
    = adapters.Inherited.
Proof.
  destruct (register_resolve "ws" Sample.udp
              (adapters.initial Sample.ipc Sample.tcp Sample.udp)) as (_ & _ & Hne & Hi).
  split; [|split].
  - rewrite Hne by done. rewrite Hi. reflexivity.
  - rewrite Hi. reflexivity.
  - rewrite Hi. reflexivity.
Defined.

(** X2.  The client keeps the name of its adapter, not the adapter: once a
    module is registered under that name, use creates the socket with the new
    module, whatever the name resolved to before. *)
Theorem use_binds_late mod_ socket w :
  let w' := (call (RegisterAdapter (options.adapter (Client.options (this w))) mod_) w).2 in
  use socket w' = (Return (this (attached mod_ socket w')), attached mod_ socket w')
  ∧ Client.socket (this (attached mod_ socket w'))
    = Some (adapters.createSocket mod_ (Client.options (this w)) socket).
Proof.
  cbn zeta. rewrite use_eq.
  assert (Ha : adapter_of
    (call (RegisterAdapter (options.adapter (Client.options (this w))) mod_) w).2
    = Some mod_).
  { unfold adapter_of. cbn [call modify snd adapters_list this].
    by rewrite resolve_register. }
  by rewrite Ha.
Qed.

(** On a client built over tcp, registering the udp module under "tcp" makes
    the next use create a udp socket. *)
Lemma use_binds_late_run :
  Client.socket
    (this (use None (call (RegisterAdapter "tcp" Sample.udp) Sample.fresh).2).2)
  = Some 42%nat.
Proof.
  pose proof (use_binds_late Sample.udp None Sample.fresh) as H. cbn zeta in H.
  change (options.adapter (Client.options (this Sample.fresh))) with "tcp" in H.
  destruct H as [Hu Hs]. rewrite Hu. cbn [snd]. rewrite Hs. reflexivity.
Defined.

(** ** One socket at a time *)

(** X3.  With the adapter resolved, use returns the client holding the socket
    the adapter created; a socket already held is handed to the adapter's
    disconnect first, and only then; the channels are not touched.  With the
    adapter unresolved, use throws and the client keeps the socket it had.
    So two calls of use in a row disconnect the socket of the first before
    creating the second. *)
Theorem use_replaces_socket socket w :
  (∀ a, adapter_of w = Some a →
     ∃ w', use socket w = (Return (this w'), w')
       ∧ Client.socket (this w')
         = Some (adapters.createSocket a (Client.options (this w)) socket)
       ∧ trace w' = trace w
           ++ match Client.socket (this w) with
              | Some s => [EvDisconnect (options.adapter (Client.options (this w))) (Some s)]
              | None => []
              end
           ++ [EvCreateSocket (options.adapter (Client.options (this w))) socket]
       ∧ Client.channels (this w') = Client.channels (this w)
       ∧ ∀ socket2, trace (use socket2 w').2 = trace w'
           ++ [EvDisconnect (options.adapter (Client.options (this w)))
                 (Some (adapters.createSocket a (Client.options (this w)) socket));
               EvCreateSocket (options.adapter (Client.options (this w))) socket2])
  ∧ (adapter_of w = None → use socket w = (Throw TypeError, w)).
Proof.
  split.
  - intros a Ha. rewrite use_eq, Ha. eexists. split; [reflexivity|].
    split; [done|]. split; [done|]. split; [done|].
    intros socket2. rewrite use_eq.
    change (adapter_of (attached a socket w)) with (adapter_of w). by rewrite Ha.
  - intros Ha. by rewrite use_eq, Ha.
Qed.

Lemma use_replaces_socket_run :
  trace (use (Some 9%nat) (use None Sample.fresh).2).2
  = [EvCreateSocket "tcp" None; EvDisconnect "tcp" (Some 40%nat);
     EvCreateSocket "tcp" None; EvDisconnect "tcp" (Some 40%nat);
     EvCreateSocket "tcp" (Some 9%nat)]
  ∧ use None (constructor Sample.defaults "77b2" Sample.no_adapter_arg None Sample.boot).2
    = (Throw TypeError,
       (constructor Sample.defaults "77b2" Sample.no_adapter_arg None Sample.boot).2).
Proof.
  split.
  - destruct (use_replaces_socket None Sample.fresh) as [Hu _].
    destruct (Hu Sample.tcp) as (w' & Hw' & _ & Ht & _ & H2); [vm_compute; reflexivity|].
    rewrite Hw'. cbn [snd]. rewrite H2, Ht. vm_compute. reflexivity.
  - apply use_replaces_socket. vm_compute. reflexivity.
Defined.

(** X10.  destroy has no guard on the socket: called again on a destroyed
    client it calls the adapter's disconnect again, with no socket; and a use
    after destroy creates a socket without a second disconnect. *)
Theorem destroy_again socket a w :
  adapter_of w = Some a →
  trace (destroy (destroy w).2).2
  = trace w ++ [EvDisconnect (options.adapter (Client.options (this w)))
                  (Client.socket (this w));
                EvDisconnect (options.adapter (Client.options (this w))) None]
  ∧ trace (use socket (destroy w).2).2
    = trace w ++ [EvDisconnect (options.adapter (Client.options (this w)))
                    (Client.socket (this w));
                  EvCreateSocket (options.adapter (Client.options (this w))) socket]
  ∧ Client.socket (this (use socket (destroy w).2).2)
    = Some (adapters.createSocket a (Client.options (this w)) socket).
Proof.
  intros Ha. rewrite (destroy_eq w), Ha. cbn [snd].
  assert (Hd : adapter_of (destroyed w) = Some a) by exact Ha.
  split; [|split].
  - rewrite destroy_eq, Hd. cbn [snd]. simpl. by rewrite <- app_assoc.
  - rewrite use_eq, Hd. simpl. by rewrite <- app_assoc.
  - by rewrite use_eq, Hd.
Qed.

Lemma destroy_again_run :
  trace (destroy (destroy Sample.fresh).2).2
  = [EvCreateSocket "tcp" None; EvDisconnect "tcp" (Some 40%nat); EvDisconnect "tcp" None].
Proof.
  destruct (destroy_again None Sample.tcp Sample.fresh) as (-> & _); vm_compute; reflexivity.
Defined.

(** ** What the constructor sets *)

Lemma configuration_constructed defaults id opts socket w :
  configuration (constructor defaults id opts socket w).2
  = configuration (configured defaults id opts w).
Proof.
  rewrite constructor_eq.
  assert (Hp : configuration (populated defaults id opts w).2
               = configuration (configured defaults id opts w)).
  { unfold populated. by rewrite configuration_outside, subscribe_all_outside. }
  destruct (populated defaults id opts w).1; [|done].
  by destruct (adapter_of _).
Qed.

(** X11.  The client the constructor leaves, whether it returned or threw,
    has the given identity and the options merged with [||]: a missing or
    falsy option (port 0, empty host name, stats false) gives way to the
    default, so statistics that are on by default cannot be switched off;
    the bundler options are the defaults overlaid with the given ones, key by
    key; and the client counts as made by a server exactly when the options
    have a tick property, null or not. *)
Theorem constructor_defaults defaults id opts socket w :
  let c := this (constructor defaults id opts socket w).2 in
  Client.id c = id
  ∧ options.port (Client.options c)
    = match arg.port opts with
      | Some p => if decide (p = 0) then options.port defaults else p
      | None => options.port defaults
      end
  ∧ options.hostname (Client.options c)
    = match arg.hostname opts with
      | Some h => if decide (h = "") then options.hostname defaults else h
      | None => options.hostname defaults
      end
  ∧ (options.stats (Client.options c) = true
     ↔ arg.stats opts = Some true ∨ options.stats defaults = true)
  ∧ (∀ k, options.bundler (Client.options c) !! k
          = match arg.bundler opts ≫= (.!! k) with
            | Some v => Some v
            | None => options.bundler defaults !! k
            end)
  ∧ (Client.fromServer c = true ↔ arg.tick opts ≠ None)
  ∧ Client.tick c = from_option (λ t, t) None (arg.tick opts).
Proof.
  cbn zeta.
  pose proof (configuration_constructed defaults id opts socket w) as Hc.
  unfold configuration in Hc. injection Hc as -> -> -> ->.
  cbn [configured set_this this Client.id Client.options Client.fromServer Client.tick
       options.port options.hostname options.stats options.bundler].
  split; [done|]. split.
  { unfold or_else, truthy_number. destruct (arg.port opts) as [p|]; [|done].
    case_decide as Hp; [by subst|]. by destruct (Z.eqb_spec p 0). }
  split.
  { unfold or_else. destruct (arg.hostname opts) as [[|a h]|]; try done. }
  split.
  { unfold or_else, truthy_bool. destruct (arg.stats opts) as [[]|]; split; eauto;
      intros [?|?]; done. }
  split.
  { intros k. unfold assign, or_else, truthy_object.
    destruct (arg.bundler opts) as [b|]; simpl.
    - rewrite lookup_union. destruct (b !! k), (options.bundler defaults !! k); done.
    - rewrite lookup_union, lookup_empty. by destruct (options.bundler defaults !! k). }
  split.
  { rewrite bool_decide_eq_true. done. }
  by destruct (arg.tick opts).
Qed.

(** Statistics on by default stay on when the options say false; port 0
    gives the default port. *)
Lemma constructor_defaults_run :
  options.stats
    (Client.options
       (this (constructor (options.mk "0.0.0.0" 3000 "tcp" "json" ∅ true 30000) "c1"
                (arg.mk None (Some 0) None None None (Some false) None None None) None
                Sample.boot).2)) = true.
Proof.
  pose proof (constructor_defaults (options.mk "0.0.0.0" 3000 "tcp" "json" ∅ true 30000)
    "c1" (arg.mk None (Some 0) None None None (Some false) None None None) None
    Sample.boot) as H.
  cbn zeta in H. destruct H as (_ & _ & _ & Hs & _).
  apply Hs. by right.
Defined.

(** ** After a disconnection *)

(** X5.  handleDisconnect forgets the socket and nothing else guards on it:
    on a client that has no channel named hasOwnProperty, a sendNow that
    follows still hands its frame to the adapter's send, with no socket. *)
Theorem sendNow_after_disconnect name payload e w :
  guarded w →
  encoder_of w = Some e →
  is_Some (adapter_of w) →
  let w1 := (handleDisconnect w).2 in
  Client.socket (this w1) = None
  ∧ Client.channels (this w1) = Client.channels (this w)
  ∧ (sendNow name payload w1).1 = Return (this (sendNow name payload w1).2)
  ∧ trace (sendNow name payload w1).2
    = trace w
      ++ [EvEmit "disconnect" None; EvEmit "disconnection" None;
          EvSend (options.adapter (Client.options (this w))) None
            (encoders.encode e (name, [payload]))]
      ++ (if options.stats (Client.options (this w))
          then [EvStats 1 (length (encoders.encode e (name, [payload])))]
          else []).
Proof.
  intros Hg He [a Ha]. cbn zeta.
  split; [done|]. split; [done|].
  assert (Hg1 : guarded (handleDisconnect w).2) by exact Hg.
  rewrite sendNow_eq, decide_True by done.
  rewrite encoder_of_subscribed, adapter_of_subscribed.
  change (encoder_of (handleDisconnect w).2) with (encoder_of w).
  change (adapter_of (handleDisconnect w).2) with (adapter_of w).
  rewrite He, Ha. cbn [fst snd]. split; [done|].
  change (trace (set_trace ?t _)) with t.
  rewrite emitted_subscribed, trace_subscribed.
  simpl. by rewrite <- !app_assoc.
Qed.

Lemma sendNow_after_disconnect_run :
  trace (sendNow (JStr "c") (JInt 3) (handleDisconnect Sample.fresh).2).2
  = [EvCreateSocket "tcp" None; EvEmit "disconnect" None; EvEmit "disconnection" None;
     EvSend "tcp" None (encoders.encode Sample.json (JStr "c", [JInt 3]))].
Proof.
  pose proof (sendNow_after_disconnect (JStr "c") (JInt 3) Sample.json Sample.fresh) as H.
  cbn zeta in H. destruct H as (_ & _ & _ & ->); [vm_compute; reflexivity..| |].
  - vm_compute. eexists. reflexivity.
  - vm_compute. reflexivity.
Defined.

(** ** Own channels are never dropped *)

Lemma same_object_refl ch : same_object ch ch.
Proof. by repeat split. Qed.

Lemma same_object_trans c1 c2 c3 :
  same_object c1 c2 → same_object c2 c3 → same_object c1 c3.
Proof. unfold same_object. intros (-> & -> & ->) (-> & -> & ->). done. Qed.

Lemma persist_created key opts w k ch :
  Client.channels (this w) !! k = Some ch →
  Client.channels (this (created key opts w)) !! k = Some ch.
Proof.
  intros Hk. destruct (decide (key = k)) as [->|Hne].
  - unfold created. rewrite Hk. exact Hk.
  - by rewrite created_lookup_ne.
Qed.

Lemma persist_updated key (method : Channel.t -> Channel.t) w k ch :
  (∀ c, same_object c (method c)) →
  Client.channels (this w) !! k = Some ch →
  ∃ ch', Client.channels (this (updated key method w)) !! k = Some ch' ∧ same_object ch ch'.
Proof.
  intros Hm Hk. destruct (decide (key = k)) as [->|Hne].
  - rewrite updated_lookup, Hk. by eexists.
  - rewrite updated_lookup_ne by done. exists ch. split; [done|apply same_object_refl].
Qed.

Lemma persist_mutated key (method : Channel.t -> Channel.t) w k ch :
  (∀ c, same_object c (method c)) →
  Client.channels (this w) !! k = Some ch →
  ∃ ch', Client.channels (this (mutated key method w)) !! k = Some ch' ∧ same_object ch ch'.
Proof. intros Hm Hk. rewrite mutated_own. by apply persist_updated. Qed.

Lemma persist_mapped (f : Channel.t -> Channel.t) w k ch :
  (∀ c, same_object c (f c)) →
  Client.channels (this w) !! k = Some ch →
  ∃ ch', Client.channels (this (with_channels (fmap f) w)) !! k = Some ch'
         ∧ same_object ch ch'.
Proof. intros Hf Hk. simpl. rewrite lookup_fmap, Hk. by eexists. Qed.

Lemma addHandler_object fn c : same_object c (Channel.addHandler fn c).
Proof. unfold Channel.addHandler. case_decide; by repeat split. Qed.

Lemma persist_subscribed name handler opts w k ch :
  Client.channels (this w) !! k = Some ch →
  ∃ ch', Client.channels (this (subscribed name handler opts w)) !! k = Some ch'
         ∧ same_object ch ch'.
Proof.
  intros Hk. unfold subscribed.
  pose proof (persist_created (toString name) opts w k ch Hk) as H1.
  destruct handler; [|exists ch; split; [done|apply same_object_refl]].
  by apply persist_mutated; [apply addHandler_object|].
Qed.

Lemma persist_sent (method : Channel.t -> Channel.t) name w k ch :
  (∀ c, same_object c (method c)) →
  Client.channels (this w) !! k = Some ch →
  ∃ ch', Client.channels
           (this (mutated (toString name) method (subscribed name None ∅ w))) !! k
         = Some ch' ∧ same_object ch ch'.
Proof.
  intros Hm Hk.
  destruct (persist_subscribed name None ∅ w k ch Hk) as (c1 & H1 & Hs1).
  destruct (persist_mutated (toString name) method _ k c1 Hm H1) as (c2 & H2 & Hs2).
  exists c2. split; [done|]. by eapply same_object_trans.
Qed.

Lemma persist_expiry read write w k ch :
  (∀ c v, Client.channels (this (write c v)) = Client.channels (this v)) →
  Client.channels (this w) !! k = Some ch →
  Client.channels (this (expiry read write w).2) !! k = Some ch.
Proof.
  intros Hw Hk. rewrite expiry_eq.
  destruct (read w) as [c0|]; [|done].
  destruct (Channel.timer c0); [|done].
  destruct (Channel.pending c0); cbn [snd]; [|by rewrite Hw].
  destruct (encoder_of _); [destruct (adapter_of _)|]; cbn [snd];
    rewrite ?Hw; cbn [set_trace this]; by rewrite ?Hw.
Qed.

Lemma persist_call c w k ch :
  Client.channels (this w) !! k = Some ch →
  ∃ ch', Client.channels (this (call c w).2) !! k = Some ch' ∧ same_object ch ch'.
Proof.
  intros Hk.
  assert (Hsame : ∃ ch', Client.channels (this w) !! k = Some ch' ∧ same_object ch ch')
    by (exists ch; split; [done|apply same_object_refl]).
  destruct c; cbn [call]; rewrite ?void_snd.
  - rewrite subscribe_eq. case_decide; [|done]. by apply persist_subscribed.
  - rewrite unsubscribe_eq. case_decide; [|done]. by apply persist_updated.
  - rewrite use_eq. by destruct (adapter_of w).
  - js_unfold. by destruct (error_listener w).
  - rewrite handleConnect_eq. cbn [snd].
    apply (persist_mapped _ (set_trace _ w)); [|done].
    intros c. destruct (Channel.pending c); by repeat split.
  - done.
  - rewrite send_eq. case_decide; [|done]. cbn [snd].
    by apply persist_sent; [intros c; repeat split|].
  - rewrite sendOnce_eq. case_decide; [|done]. cbn [snd].
    by apply persist_sent; [intros c; repeat split|].
  - rewrite sendNow_eq. case_decide; [|done].
    destruct (persist_subscribed name None ∅ w k ch Hk) as (c1 & H1 & Hs1).
    destruct (encoder_of _); [destruct (adapter_of _)|]; cbn [snd]; by eexists.
  - rewrite handleRequest_eq. destruct (encoder_of w); [|done].
    destruct (truthy _ && truthy_length _); [|done]. by case_decide.
  - rewrite destroy_eq. destruct (adapter_of w); [|done]. cbn [snd].
    unfold destroyed. apply persist_mapped; [|done]. intros c. by repeat split.
  - rewrite bundler_expiry_eq.
    destruct (Client.channels (this w) !! key) as [c0|] eqn:E; [|done].
    destruct (Channel.timer c0); [|done].
    destruct (persist_updated key Channel.resetBundler w k ch
                (λ c, same_object_refl c) Hk) as (c1 & H1 & Hs1).
    destruct (Channel.pending c0); cbn [snd]; [|by eexists].
    destruct (encoder_of w); [destruct (adapter_of w)|]; cbn [snd]; try by eexists.
    destruct (persist_updated key (Channel.set_packets [])
                (set_trace (trace w ++ emitted e (JStr (Channel.name c0))
                                         (Channel.packets c0) w)
                   (updated key Channel.resetBundler w)) k c1
                (λ c, same_object_refl c)) as (c2 & H2 & Hs2).
    { exact H1. }
    exists c2. split; [done|]. by eapply same_object_trans.
  - unfold proto_expiry. rewrite persist_expiry with (ch := ch); [by eexists|done|done].
  - unfold orphan_expiry. rewrite persist_expiry with (ch := ch); [by eexists|done|done].
  - done.
  - done.
Qed.

(** X6.  The client never drops an own channel of its table and never
    replaces one: a channel that is an own property of the table stays there
    over any calls whatever, destroy and the calls that throw included, as
    the same object with the name and the options it was created with.  (A
    Channel kept as the prototype of the table, under the name [__proto__],
    is no own property; it is replaced by each subscribe under that
    name.) *)
Theorem channels_persist calls w key ch :
  Client.channels (this w) !! key = Some ch →
  ∃ ch', Client.channels (this (run calls w)) !! key = Some ch' ∧ same_object ch ch'.
Proof.
  revert w ch. induction calls as [|c calls IH]; intros w ch Hk.
  { exists ch. split; [done|apply same_object_refl]. }
  simpl. destruct (persist_call c w key ch Hk) as (c1 & H1 & Hs1).
  destruct (IH _ c1 H1) as (c2 & H2 & Hs2).
  exists c2. split; [done|]. by eapply same_object_trans.
Qed.

Lemma channels_persist_run :
  ∃ ch', Client.channels
           (this (run [Unsubscribe (JStr "x") 1%nat; Subscribe (JStr "x") None {["every" := 0]};
                       Send (JStr "hasOwnProperty") JNull; Send (JStr "__proto__") JNull;
                       Destroy; HandleDisconnect]
                    (subscribe (JStr "x") (Some 1%nat) {["every" := 50]} Sample.fresh).2))
         !! "x" = Some ch'
         ∧ Channel.options ch' = {["every" := 50]} ∪ {["every" := 16]}.
Proof.
  destruct (channels_persist
    [Unsubscribe (JStr "x") 1%nat; Subscribe (JStr "x") None {["every" := 0]};
     Send (JStr "hasOwnProperty") JNull; Send (JStr "__proto__") JNull;
     Destroy; HandleDisconnect]
    (subscribe (JStr "x") (Some 1%nat) {["every" := 50]} Sample.fresh).2 "x"
    (Channel.mk 0 "x" ({["every" := 50]} ∪ {["every" := 16]}) [] [1%nat] false))
    as (ch' & Hch' & _ & _ & Ho); [vm_compute; reflexivity|].
  exists ch'. split; [exact Hch'|exact Ho].
Defined.

(** ** The names of the table and the count of Channel objects *)

Lemma names_insert_new key (ch : Channel.t) (m : gmap string Channel.t) :
  dom (<[key := ch]> m) = ({[key]} ∪ dom m : gset string).
Proof. by rewrite dom_insert_L. Qed.

Lemma names_absorb key (s : gset string) : key ∈ s → {[key]} ∪ s = s.
Proof.
  intros Hin. apply set_eq. intros x. rewrite elem_of_union, elem_of_singleton.
  split; [by intros [->|?]|by right].
Qed.

Lemma names_created key opts w :
  key ≠ "__proto__" → names (created key opts w) = {[key]} ∪ names w.
Proof.
  intros Hp. unfold names, created.
  destruct (Client.channels (this w) !! key) as [ch|] eqn:E.
  - apply elem_of_dom_2 in E. by rewrite names_absorb.
  - unfold assigned. cbn [set_allocated this Client.channels]. rewrite E.
    rewrite decide_False by done. simpl. by rewrite dom_insert_L.
Qed.

Lemma names_updated key method w : names (updated key method w) = names w.
Proof.
  unfold names, updated.
  destruct (Client.channels (this w) !! key) as [ch|] eqn:E; simpl; [|done].
  rewrite dom_insert_L. apply elem_of_dom_2 in E. by rewrite names_absorb.
Qed.

Lemma names_mutated key method w : names (mutated key method w) = names w.
Proof. unfold names. rewrite mutated_own. apply names_updated. Qed.

Lemma names_subscribed name handler opts w :
  toString name ≠ "__proto__" →
  names (subscribed name handler opts w) = {[toString name]} ∪ names w.
Proof.
  intros Hp. unfold subscribed.
  destruct handler; by rewrite ?names_mutated, names_created.
Qed.

Lemma allocated_created key opts w :
  key ≠ "__proto__" →
  allocated (created key opts w)
  = if decide (key ∈ names w) then allocated w else S (allocated w).
Proof.
  intros Hp. unfold names, created.
  destruct (Client.channels (this w) !! key) as [ch|] eqn:E.
  - rewrite decide_True; [done|]. by apply elem_of_dom_2 in E.
  - rewrite decide_False by (by apply not_elem_of_dom).
    unfold assigned. cbn [set_allocated this Client.channels]. rewrite E.
    by rewrite decide_False.
Qed.

Lemma allocated_subscribed name handler opts w :
  toString name ≠ "__proto__" →
  allocated (subscribed name handler opts w)
  = if decide (toString name ∈ names w) then allocated w else S (allocated w).
Proof.
  intros Hp. unfold subscribed.
  destruct handler; by rewrite ?allocated_mutated, allocated_created.
Qed.

(** X8.  send, sendOnce and sendNow subscribe before anything else: on a
    client that has no channel named hasOwnProperty, and for a name whose
    string is not [__proto__], after each of them the channel of the name
    exists, no other channel has been added, and a Channel object was
    constructed exactly when the name was new.  This holds for sendNow also
    when it throws for want of an encoder or adapter. *)
Theorem send_family_subscribes name payload w :
  guarded w →
  toString name ≠ "__proto__" →
  let grown (w' : World) :=
    names w' = {[toString name]} ∪ names w
    ∧ allocated w' = (if decide (toString name ∈ names w)
                      then allocated w else S (allocated w)) in
  grown (send name payload w).2
  ∧ grown (sendOnce name payload w).2
  ∧ grown (sendNow name payload w).2.
Proof.
  intros Hg Hp. cbn zeta. rewrite send_eq, sendOnce_eq.
  destruct (decide (guarded w)) as [_|?]; [|done]. cbn [snd].
  rewrite !names_mutated, !allocated_mutated, names_subscribed, allocated_subscribed
    by done.
  split; [done|]. split; [done|].
  rewrite sendNow_eq. rewrite (decide_True (P := guarded w)) by done.
  destruct (encoder_of _); [destruct (adapter_of _)|]; cbn [snd];
    (split; [by apply names_subscribed|by apply allocated_subscribed]).
Qed.

Lemma send_family_subscribes_run :
  allocated (sendNow (JStr "c") (JInt 1) (send (JStr "c") (JInt 0) Sample.fresh).2).2
  = 1%nat
  ∧ names (sendNow (JStr "d") (JInt 1) Sample.no_encoder).2 = {["d"]}.
Proof.
  split.
  - destruct (send_family_subscribes (JStr "c") (JInt 1)
                (send (JStr "c") (JInt 0) Sample.fresh).2) as (_ & _ & _ & ->);
      [vm_compute; reflexivity|discriminate|].
    vm_compute. reflexivity.
  - destruct (send_family_subscribes (JStr "d") (JInt 1) Sample.no_encoder)
      as (_ & _ & -> & _); [vm_compute; reflexivity|discriminate|].
    vm_compute. reflexivity.
Defined.

(** ** unsubscribe and destroy *)

(** X9.  On a client that has no channel named hasOwnProperty, unsubscribe,
    whatever the name, returns the client; it adds no channel and removes
    none, constructs nothing, leaves every other channel as it is, and
    touches neither the socket nor the trace.  What it does to the channel
    of the name, when there is one, is to take the handler off it; when
    there is none, it does nothing at all. *)
Theorem unsubscribe_keeps_channels name handler w :
  guarded w →
  let w' := (unsubscribe name handler w).2 in
  (unsubscribe name handler w).1 = Return (this w')
  ∧ names w' = names w
  ∧ allocated w' = allocated w
  ∧ outside w' = outside w
  ∧ Client.proto (this w') = Client.proto (this w)
  ∧ (∀ key, key ≠ toString name →
       Client.channels (this w') !! key = Client.channels (this w) !! key)
  ∧ Client.channels (this w') !! toString name
    = Channel.removeHandler handler <$> Client.channels (this w) !! toString name
  ∧ (Client.channels (this w) !! toString name = None → w' = w).
Proof.
  intros Hg. cbn zeta. rewrite unsubscribe_eq, decide_True by done. cbn [fst snd].
  split; [done|]. split; [apply names_updated|]. split; [apply allocated_updated|].
  split; [apply outside_updated|].
  split; [unfold updated; by destruct (Client.channels (this w) !! toString name)|].
  split; [|split; [apply updated_lookup|]].
  - intros key Hne. by rewrite updated_lookup_ne.
  - intros Hn. unfold updated. by rewrite Hn.
Qed.

Lemma unsubscribe_keeps_channels_run :
  Client.channels
    (this (unsubscribe (JStr "a") 1%nat
             (run [Subscribe (JStr "a") (Some 1%nat) ∅; Send (JStr "b") (JInt 7)]
                Sample.fresh)).2) !! "b"
  = Client.channels
      (this (run [Subscribe (JStr "a") (Some 1%nat) ∅; Send (JStr "b") (JInt 7)]
               Sample.fresh)) !! "b"
  ∧ (unsubscribe (JStr "x") 3%nat Sample.fresh).2 = Sample.fresh.
Proof.
  split.
  - apply (unsubscribe_keeps_channels (JStr "a") 1%nat
             (run [Subscribe (JStr "a") (Some 1%nat) ∅; Send (JStr "b") (JInt 7)]
                Sample.fresh)).
    + vm_compute. reflexivity.
    + done.
  - apply (unsubscribe_keeps_channels (JStr "x") 3%nat Sample.fresh);
      vm_compute; reflexivity.
Defined.

(** ** The channels of the constructor *)

Lemma subscribe_all_names chans w :
  guarded w →
  Forall (λ ch, ordinary ch.1) chans →
  names (subscribe_all chans w).2 = list_to_set chans.*1 ∪ names w
  ∧ (allocated (subscribe_all chans w).2 + size (names w)
     = allocated w + size (names (subscribe_all chans w).2))%nat.
Proof.
  revert w. induction chans as [|[c h] rest IH]; intros w Hg Hall.
  { cbn. split; [|lia]. apply set_eq. intros x. rewrite elem_of_union, elem_of_empty. tauto. }
  apply Forall_cons in Hall as [[Hp Hh] Hall]. cbn [fst] in Hp, Hh.
  rewrite subscribe_all_cons, decide_True by done.
  destruct (IH (subscribed (JStr c) h ∅ w)) as [Hn Ha];
    [by apply guarded_subscribed|done|].
  rewrite names_subscribed in Hn, Ha by done.
  rewrite allocated_subscribed in Ha by done. cbn [toString] in Hn, Ha.
  split.
  - rewrite Hn. cbn [fmap list_fmap fst list_to_set].
    apply set_eq. intros x. rewrite !elem_of_union, elem_of_singleton. tauto.
  - case_decide as Hin.
    + rewrite names_absorb in Ha by done. exact Ha.
    + rewrite size_union, size_singleton in Ha; [lia|].
      intros x. rewrite elem_of_singleton. by intros ->.
Qed.

(** X12.  When no key of [options.channels] is [hasOwnProperty] or
    [__proto__], the constructor creates one channel for each key and no
    other, constructing one Channel object per channel, and this whether or
    not the adapter resolves afterwards; the channels it leaves are distinct
    objects, each under its own name. *)
Theorem constructor_channels defaults id opts socket w :
  Forall (λ ch, ordinary ch.1) (default [] (arg.channels opts)) →
  let w' := (constructor defaults id opts socket w).2 in
  names w' = list_to_set (default [] (arg.channels opts)).*1
  ∧ allocated w' = (allocated w + size (names w'))%nat
  ∧ distinct_channels w'.
Proof.
  intros Hall. cbn zeta.
  destruct (subscribe_all_names (default [] (arg.channels opts))
              (configured defaults id opts w) (guarded_configured _ _ _ _) Hall)
    as [Hn Ha].
  fold (populated defaults id opts w) in Hn, Ha.
  assert (Hn' : names (populated defaults id opts w).2
                = list_to_set (default [] (arg.channels opts)).*1).
  { rewrite Hn.
    assert (He : names (configured defaults id opts w) = ∅)
      by (unfold names; cbn; apply dom_empty_L).
    rewrite He. apply set_eq. intros x. rewrite elem_of_union, elem_of_empty. tauto. }
  assert (Ha' : allocated (populated defaults id opts w).2
                = (allocated w + size (names (populated defaults id opts w).2))%nat).
  { assert (He : names (configured defaults id opts w) = ∅)
      by (unfold names; cbn; apply dom_empty_L).
    rewrite He, size_empty in Ha.
    change (allocated (configured defaults id opts w)) with (allocated w) in Ha. lia. }
  split; [|split; [|apply distinct_constructed]].
  - rewrite constructor_eq.
    destruct (populated defaults id opts w).1; [|done]. by destruct (adapter_of _).
  - rewrite constructor_eq.
    destruct (populated defaults id opts w).1; [|done]. by destruct (adapter_of _).
Qed.

Lemma constructor_channels_run :
  names (constructor Sample.defaults "77b2" Sample.no_adapter_arg None Sample.boot).2
  = {["a"]}
  ∧ allocated (constructor Sample.defaults "77b2" Sample.no_adapter_arg None Sample.boot).2
    = 1%nat.
Proof.
  assert (H : Forall (λ ch : string * option Handler, ordinary ch.1)
                (default [] (arg.channels Sample.no_adapter_arg))).
  { repeat constructor; cbn; discriminate. }
  destruct (constructor_channels Sample.defaults "77b2" Sample.no_adapter_arg None
              Sample.boot H) as (Hn & Ha & _).
  split; [rewrite Hn; vm_compute; reflexivity|].
  rewrite Ha, Hn. vm_compute. reflexivity.
Defined.

(** ** Inbound frames *)

(** X14.  handleRequest finds the channel of a frame by the string of the
    frame's first element, so two frames that carry the same packets and name
    their channel 1 and "1" are handled alike; and unlike the send family it
    creates no channel for a name it does not know. *)
Theorem handleRequest_by_string evt1 evt2 e c1 c2 rest w :
  encoder_of w = Some e →
  encoders.decode e evt1 = JArr (c1 :: rest) →
  encoders.decode e evt2 = JArr (c2 :: rest) →
  toString c1 = toString c2 →
  handleRequest evt1 w = handleRequest evt2 w
  ∧ names (handleRequest evt1 w).2 = names w
  ∧ allocated (handleRequest evt1 w).2 = allocated w.
Proof.
  intros He H1 H2 Hs. rewrite !handleRequest_eq, He.
  unfold forwarded. rewrite H1, H2. cbn [truthy truthy_length andb].
  split; [|by case_decide].
  case_decide; [|done].
  change (index (JArr (c1 :: rest)) 0) with c1.
  change (index (JArr (c2 :: rest)) 0) with c2.
  change (index (JArr (c1 :: rest)) 1) with (index (JArr (c2 :: rest)) 1).
  by rewrite Hs.
Qed.

Lemma handleRequest_by_string_run :
  handleRequest [Byte.x01] (run [Subscribe (JInt 1) (Some 5%nat) ∅] Sample.fresh)
  = handleRequest [Byte.x02] (run [Subscribe (JInt 1) (Some 5%nat) ∅] Sample.fresh)
  ∧ trace (handleRequest [Byte.x01]
             (run [Subscribe (JInt 1) (Some 5%nat) ∅] Sample.fresh)).2
    = [EvCreateSocket "tcp" None; EvHandle "1" 5%nat (JStr "n")].
Proof.
  split; [|vm_compute; reflexivity].
  apply (handleRequest_by_string [Byte.x01] [Byte.x02] Sample.json
           (JInt 1) (JStr "1") [JArr [JStr "n"]]); vm_compute; reflexivity.
Defined.

(** * What holds of the channels that are own properties *)

(** ** Queues over any calls *)

Lemma pending_expiry key k w :
  pending key (bundler_expiry k w).2 = pending key w
  ∨ pending key (bundler_expiry k w).2 = [].
Proof.
  rewrite bundler_expiry_eq.
  destruct (Client.channels (this w) !! k) as [ch|] eqn:E; [|by left].
  destruct (Channel.timer ch); [|by left].
  destruct (Channel.pending ch).
  2:{ left. cbn [snd]. by apply pending_updated_same. }
  destruct (encoder_of w), (adapter_of w); cbn [snd];
    try (left; by apply pending_updated_same).
  rewrite pending_updated. case_decide as Hk.
  - right. cbn [set_trace this]. rewrite updated_lookup, E. done.
  - left. change (pending key (updated k Channel.resetBundler w) = pending key w).
    by apply pending_updated_same.
Qed.

Lemma pending_call c key w :
  ¬ sends_on key c →
  pending key (call c w).2 = pending key w
  ∨ (length (pending key (call c w).2) ≤ 1)%nat.
Proof.
  intros Hc. destruct c; cbn [call sends_on] in *; rewrite ?void_snd.
  - left. rewrite subscribe_eq. case_decide; [|done]. apply pending_subscribed.
  - left. rewrite unsubscribe_eq. case_decide; [|done]. by apply pending_updated_same.
  - left. rewrite use_eq. by destruct (adapter_of w).
  - left. js_unfold. by destruct (error_listener w).
  - left. rewrite handleConnect_eq. unfold pending, resumed. simpl. rewrite lookup_fmap.
    destruct (Client.channels (this w) !! key) as [ch|]; simpl; [|done].
    by destruct (Channel.pending ch).
  - by left.
  - left. rewrite send_eq. case_decide; [|done]. cbn [snd].
    rewrite pending_mutated, pending_updated, decide_False by done.
    apply pending_subscribed.
  - rewrite sendOnce_eq. case_decide; [|by left]. cbn [snd].
    rewrite pending_mutated, pending_updated. case_decide.
    + right. destruct (Client.channels _ !! _); cbn; lia.
    + left. apply pending_subscribed.
  - left. rewrite sendNow_eq. case_decide; [|done].
    destruct (encoder_of _); [destruct (adapter_of _)|]; cbn [snd];
      apply pending_subscribed.
  - left. rewrite handleRequest_eq. destruct (encoder_of w); [|done].
    destruct (truthy _ && truthy_length _); [|done]. by case_decide.
  - left. rewrite destroy_eq. destruct (adapter_of w); [|done].
    unfold pending, destroyed. simpl. rewrite lookup_fmap.
    by destruct (Client.channels (this w) !! key).
  - destruct (pending_expiry key key0 w) as [->| ->]; [by left|right; simpl; lia].
  - left. apply pending_ext. by apply table_expiry.
  - left. apply pending_ext. by apply table_expiry.
  - by left.
  - by left.
Qed.

Lemma pending_run calls key w :
  Forall (λ c, ¬ sends_on key c) calls →
  (length (pending key w) ≤ 1)%nat →
  (length (pending key (run calls w)) ≤ 1)%nat.
Proof.
  intros Hcalls. revert w.
  induction Hcalls as [|c calls Hc _ IH]; intros w Hw; [done|].
  simpl. apply IH.
  destruct (pending_call c key w Hc) as [->|]; done.
Qed.

(** The timer callback of an own channel whose queue holds packets hands
    exactly these to the encoder and the adapter, and empties the queue. *)
Lemma expiry_flushes key ch e w :
  Client.channels (this w) !! key = Some ch →
  Channel.timer ch = true →
  Channel.packets ch ≠ [] →
  encoder_of w = Some e →
  is_Some (adapter_of w) →
  ∃ w', bundler_expiry key w = (Return tt, w')
        ∧ trace w' = trace w ++ emitted e (JStr (Channel.name ch)) (Channel.packets ch) w
        ∧ pending key w' = []
        ∧ armed key w' = false.
Proof.
  intros Hch Ht Hp He [a Ha].
  rewrite bundler_expiry_eq, Hch, Ht, He, Ha.
  assert (Hpe : Channel.pending ch = true).
  { unfold Channel.pending. by destruct (Channel.packets ch). }
  rewrite Hpe.
  eexists. split; [reflexivity|].
  split; [|split].
  - by rewrite trace_outside, outside_updated.
  - rewrite pending_updated, decide_True by done. cbn [set_trace this].
    by rewrite updated_lookup, Hch.
  - rewrite armed_updated, decide_True by done. cbn [set_trace this].
    by rewrite updated_lookup, Hch.
Qed.

Lemma lookup_sentOnce name payload w :
  toString name ≠ "__proto__" →
  ∃ ch, Client.channels
          (this (mutated (toString name) (Channel.sendOnce payload)
                   (subscribed name None ∅ w))) !! toString name = Some ch
        ∧ Channel.packets ch = [payload] ∧ Channel.timer ch = true.
Proof.
  intros Hp. rewrite mutated_lookup.
  destruct (subscribed_lookup name None ∅ w Hp) as [ch ->]. by eexists.
Qed.

(** X16.  On a client that has no channel named hasOwnProperty, and for a
    name whose string is not [__proto__], sendOnce returns the client,
    replaces the whole pending queue of its channel by the one payload and
    arms the bundler, leaving the other channels as they were; from then on,
    whatever happens to the client short of a send on that channel, the
    queue holds at most one packet; and with the encoder and adapter names
    resolving, the expiry of the channel's timer hands the encoder and the
    adapter the batch of that payload alone and leaves the queue empty. *)
Theorem sendOnce_replaces_queue name p w :
  guarded w →
  toString name ≠ "__proto__" →
  let key := toString name in
  let w1 := (sendOnce name p w).2 in
  (sendOnce name p w).1 = Return (this w1)
  ∧ pending key w1 = [p]
  ∧ armed key w1 = true
  ∧ (∀ k, k ≠ key → pending k w1 = pending k w ∧ armed k w1 = armed k w)
  ∧ (∀ calls, Forall (λ c, ¬ sends_on key c) calls →
       (length (pending key (run calls w1)) ≤ 1)%nat)
  ∧ (∀ e, encoder_of w = Some e → is_Some (adapter_of w) →
       ∃ ch w3, Client.channels (this w1) !! key = Some ch
                ∧ bundler_expiry key w1 = (Return tt, w3)
                ∧ trace w3 = trace w ++ emitted e (JStr (Channel.name ch)) [p] w
                ∧ pending key w3 = []).
Proof.
  intros Hg Hp. cbn zeta. rewrite sendOnce_eq, decide_True by done. cbn [fst snd].
  destruct (lookup_sentOnce name p w Hp) as (ch & Hch & Hq & Ht).
  assert (Hpe : pending (toString name)
                  (mutated (toString name) (Channel.sendOnce p) (subscribed name None ∅ w))
                = [p]).
  { unfold pending. by rewrite Hch. }
  split; [done|]. split; [exact Hpe|]. split.
  { unfold armed. by rewrite Hch. }
  split.
  { intros k Hk. rewrite pending_mutated, armed_mutated, pending_updated, armed_updated,
      !decide_False by done.
    split; [apply pending_subscribed|apply armed_subscribed]. }
  split.
  { intros calls Hcalls. apply pending_run; [done|]. by rewrite Hpe. }
  intros e He Ha.
  destruct (expiry_flushes (toString name) ch e _ Hch Ht) as (w3 & Hx & Htr & Hq3 & _).
  - by rewrite Hq.
  - by rewrite encoder_of_outside, outside_mutated, outside_subscribed, <- encoder_of_outside.
  - by rewrite adapter_of_outside, outside_mutated, outside_subscribed, <- adapter_of_outside.
  - exists ch, w3. split; [done|]. split; [done|]. split; [|done].
    rewrite Htr, Hq.
    by rewrite trace_outside, emitted_outside, outside_mutated, outside_subscribed,
      <- trace_outside, <- emitted_outside.
Qed.

(** On channel "pos": 1, then 2; the timer of "pos" then puts one frame on
    the wire, the one that carries 2 alone. *)
Lemma sendOnce_replaces_queue_run :
  pending "pos"
    (sendOnce (JStr "pos") (JInt 2) (sendOnce (JStr "pos") (JInt 1) Sample.fresh).2).2
  = [JInt 2]
  ∧ trace (run [SendOnce (JStr "pos") (JInt 1); SendOnce (JStr "pos") (JInt 2);
                Timer "pos"; Timer "pos"] Sample.fresh)
    = [EvCreateSocket "tcp" None;
       EvSend "tcp" (Some 40%nat) (encoders.encode Sample.json (JStr "pos", [JInt 2]))].
Proof.
  split; [|vm_compute; reflexivity].
  apply (sendOnce_replaces_queue (JStr "pos") (JInt 2)
           (sendOnce (JStr "pos") (JInt 1) Sample.fresh).2);
    [vm_compute; reflexivity|discriminate].
Defined.

(** ** Resuming the bundlers on connection *)

(** X17.  handleConnect emits its two signals and leaves the bundler timer
    armed on every own channel of the table whose pending queue is not
    empty, the queues being what they were; it returns when no Channel is the
    prototype of the table.  Such a channel is not stalled: once its timer
    expires, with the encoder and adapter names resolving, the whole queue
    goes out as one batch. *)
Theorem handleConnect_arms_own socket w :
  let w' := (handleConnect socket w).2 in
  (Client.proto (this w) = None → (handleConnect socket w).1 = Return tt)
  ∧ trace w' = trace w ++ [EvEmit "connect" (Some socket);
                           EvEmit "connection" (Some socket)]
  ∧ (∀ key, pending key w' = pending key w)
  ∧ (∀ key, pending key w ≠ [] → armed key w' = true)
  ∧ (∀ key, pending key w = [] → armed key w' = armed key w)
  ∧ (∀ key e, pending key w ≠ [] → encoder_of w = Some e → is_Some (adapter_of w) →
       ∃ ch w'', Client.channels (this w') !! key = Some ch
         ∧ bundler_expiry key w' = (Return tt, w'')
         ∧ trace w'' = trace w' ++ emitted e (JStr (Channel.name ch)) (pending key w) w'
         ∧ pending key w'' = []).
Proof.
  cbn zeta. rewrite handleConnect_eq. cbn [fst snd].
  split; [by intros ->|].
  set (w' := resumed socket w).
  assert (Hl : ∀ key, Client.channels (this w') !! key
    = (λ ch, if Channel.pending ch then Channel.startBundler ch else ch)
        <$> Client.channels (this w) !! key).
  { intros key. subst w'. unfold resumed. simpl. by rewrite lookup_fmap. }
  assert (Hp : ∀ key, pending key w' = pending key w).
  { intros key. unfold pending. rewrite Hl.
    destruct (Client.channels (this w) !! key) as [ch|]; simpl; [|done].
    by destruct (Channel.pending ch). }
  assert (Ha : ∀ key, pending key w ≠ [] → armed key w' = true).
  { intros key. unfold pending, armed. rewrite Hl.
    destruct (Client.channels (this w) !! key) as [ch|]; simpl; [|done].
    unfold Channel.pending. by destruct (Channel.packets ch). }
  split; [done|]. split; [exact Hp|]. split; [exact Ha|]. split.
  { intros key. unfold pending, armed. rewrite Hl.
    destruct (Client.channels (this w) !! key) as [ch|]; simpl; [|done].
    unfold Channel.pending. by intros ->. }
  intros key e Hq He Hadp.
  specialize (Ha key Hq). specialize (Hp key). rewrite <- Hp in *.
  unfold armed in Ha. unfold pending in Hq |- *.
  destruct (Client.channels (this w') !! key) as [ch|] eqn:Hch; [|done].
  destruct (expiry_flushes key ch e w' Hch Ha Hq He Hadp) as (w'' & Hx & Htr & Hq' & _).
  by exists ch, w''.
Qed.

(** Two packets wait on "c" while the client is disconnected; the new
    connection arms the timer of "c" and its expiry sends both, once. *)
Lemma handleConnect_arms_own_run :
  armed "c"
    (handleConnect 41%nat
       (run [Send (JStr "c") (JInt 1); Send (JStr "c") (JInt 2); Destroy; HandleDisconnect]
          Sample.fresh)).2 = true
  ∧ trace
      (run [Send (JStr "c") (JInt 1); Send (JStr "c") (JInt 2); Destroy; HandleDisconnect;
            HandleConnect 41%nat; Timer "c"; Timer "c"] Sample.fresh)
    = [EvCreateSocket "tcp" None; EvDisconnect "tcp" (Some 40%nat);
       EvEmit "disconnect" None; EvEmit "disconnection" None;
       EvEmit "connect" (Some 41%nat); EvEmit "connection" (Some 41%nat);
       EvSend "tcp" None (encoders.encode Sample.json (JStr "c", [JInt 1; JInt 2]))].
Proof.
  split; [|vm_compute; reflexivity].
  pose proof (handleConnect_arms_own 41%nat
    (run [Send (JStr "c") (JInt 1); Send (JStr "c") (JInt 2); Destroy; HandleDisconnect]
       Sample.fresh)) as H.
  cbn zeta in H. destruct H as (_ & _ & _ & Ha & _).
  apply Ha. vm_compute. discriminate.
Defined.

(** ** subscribe creates an own channel once *)

(** X18.  On a client that has no channel named hasOwnProperty, two calls of
    subscribe with one name, whose string is neither [hasOwnProperty] nor
    [__proto__]: both return the client; the second constructs no channel
    and adds no name to the table; the channel it finds under the name is
    the object the first call left there, with the options of that object,
    its handler attached to it if one was given; and the first call
    constructed a channel only when the name was absent, with the
    per-channel options laid over the bundler options of the client. *)
Theorem subscribe_once name h1 o1 h2 o2 w :
  guarded w →
  ordinary (toString name) →
  let key := toString name in
  let w1 := (subscribe name h1 o1 w).2 in
  let w2 := (subscribe name h2 o2 w1).2 in
  (subscribe name h1 o1 w).1 = Return (this w1)
  ∧ (subscribe name h2 o2 w1).1 = Return (this w2)
  ∧ allocated w2 = allocated w1
  ∧ names w2 = names w1
  ∧ (∃ c1, Client.channels (this w1) !! key = Some c1
           ∧ Client.channels (this w2) !! key = Some (attach h2 c1)
           ∧ Channel.id (attach h2 c1) = Channel.id c1
           ∧ Channel.options (attach h2 c1) = Channel.options c1)
  ∧ (∀ k, k ≠ key → Client.channels (this w2) !! k = Client.channels (this w1) !! k)
  ∧ match Client.channels (this w) !! key with
    | None =>
        Client.channels (this w1) !! key
        = Some (attach h1 (Channel.new (allocated w) key
                             (o1 ∪ options.bundler (Client.options (this w)))))
        ∧ allocated w1 = S (allocated w)
    | Some c0 =>
        Client.channels (this w1) !! key = Some (attach h1 c0)
        ∧ allocated w1 = allocated w
    end.
Proof.
  intros Hg [Hp Hh]. cbn zeta.
  rewrite (subscribe_eq name h1), decide_True by done. cbn [fst snd].
  rewrite subscribe_eq, decide_True by (by apply guarded_subscribed). cbn [fst snd].
  set (key := toString name) in *. set (w1 := subscribed name h1 o1 w).
  destruct (subscribed_lookup name h1 o1 w Hp) as [c1 Hc1]. fold key w1 in Hc1.
  assert (Hcr : created key o2 w1 = w1) by (unfold created; by rewrite Hc1).
  assert (Hmu : ∀ m v, mutated key m v = updated key m v).
  { intros. apply mutated_updated. by right. }
  assert (Hl2 : Client.channels (this (subscribed name h2 o2 w1)) !! key
                = Some (attach h2 c1)).
  { unfold subscribed. fold key. rewrite Hcr. destruct h2; [|done].
    by rewrite mutated_lookup, Hc1. }
  assert (Hne : ∀ k, k ≠ key →
    Client.channels (this (subscribed name h2 o2 w1)) !! k = Client.channels (this w1) !! k).
  { intros k Hk. unfold subscribed. fold key. rewrite Hcr. destruct h2; [|done].
    by rewrite mutated_lookup_ne. }
  split; [done|]. split; [done|]. split.
  { unfold subscribed. fold key. rewrite Hcr. destruct h2; [|done].
    by rewrite allocated_mutated. }
  split.
  { unfold names. apply set_eq. intros k. rewrite !elem_of_dom.
    destruct (decide (k = key)) as [->|Hk]; [|by rewrite Hne].
    rewrite Hl2, Hc1. split; eauto. }
  split.
  { exists c1. repeat split; try done; destruct h2; simpl; try done;
      unfold Channel.addHandler; by case_decide. }
  split; [exact Hne|].
  subst w1. unfold subscribed, assign. fold key.
  destruct (Client.channels (this w) !! key) as [c0|] eqn:E.
  - assert (Hc0 : created key o1 w = w) by (unfold created; by rewrite E).
    rewrite Hc0. destruct h1; simpl; [|done]. rewrite Hmu.
    rewrite updated_lookup, E. split; [done|]. by rewrite allocated_updated.
  - assert (Hn : Client.channels (this (created key o1 w)) !! key
                 = Some (Channel.new (allocated w) key
                           (o1 ∪ options.bundler (Client.options (this w))))).
    { unfold created, assigned. rewrite E. cbn [set_allocated this Client.channels].
      rewrite E, decide_False by done. simpl. by rewrite lookup_insert_eq. }
    assert (Ha : allocated (created key o1 w) = S (allocated w)).
    { rewrite allocated_created by done. rewrite decide_False; [done|].
      unfold names. by apply not_elem_of_dom. }
    destruct h1; simpl; [|done]. rewrite Hmu.
    rewrite updated_lookup, Hn. split; [done|]. by rewrite allocated_updated.
Qed.

Lemma subscribe_once_run :
  allocated
    (subscribe (JStr "x") (Some 2%nat) {["every" := 0]}
       (subscribe (JStr "x") (Some 1%nat) {["every" := 50]} Sample.fresh).2).2
  = 1%nat
  ∧ Client.channels
      (this (subscribe (JStr "x") (Some 2%nat) {["every" := 0]}
               (subscribe (JStr "x") (Some 1%nat) {["every" := 50]} Sample.fresh).2).2)
    !! "x"
    = Some (Channel.mk 0 "x" {["every" := 50]} [] [1%nat; 2%nat] false).
Proof.
  assert (Hg : guarded Sample.fresh) by (vm_compute; reflexivity).
  assert (Ho : ordinary (toString (JStr "x"))) by (split; discriminate).
  pose proof (subscribe_once (JStr "x") (Some 1%nat) {["every" := 50]}
                (Some 2%nat) {["every" := 0]} Sample.fresh Hg Ho) as H.
  cbn zeta in H. destruct H as (_ & _ & Ha & _ & (c1 & Hc1 & Hc2 & _) & _).
  split.
  - rewrite Ha. vm_compute. reflexivity.
  - vm_compute. reflexivity.
Defined.

(** ** sendNow goes around the queues *)

Lemma channels_sendNow name payload w :
  guarded w →
  Client.channels (this (sendNow name payload w).2)
  = Client.channels (this (subscribed name None ∅ w)).
Proof.
  intros Hg. rewrite sendNow_eq, decide_True by done.
  destruct (encoder_of _); [|done]. by destruct (adapter_of _).
Qed.

(** X19.  On a client that has no channel named hasOwnProperty, sendNow
    leaves every own channel of the table as it was, queue and timer: a
    channel it had to create (for a name whose string is not [__proto__])
    starts with an empty queue and an idle timer, and no packet is added to
    or taken from any queue.  With the encoder and the adapter of the client
    resolved, it returns the client and the trace grows by one frame, the
    encoding of the name as given with the batch of the one payload, sent on
    the socket at once (and by the statistics line if enabled). *)
Theorem sendNow_leaves_queues name payload w :
  guarded w →
  let w' := (sendNow name payload w).2 in
  (∀ k, pending k w' = pending k w ∧ armed k w' = armed k w)
  ∧ (∀ k ch, Client.channels (this w) !! k = Some ch →
             Client.channels (this w') !! k = Some ch)
  ∧ (toString name ≠ "__proto__" →
     Client.channels (this w) !! toString name = None →
       ∃ ch, Client.channels (this w') !! toString name = Some ch
             ∧ Channel.packets ch = [] ∧ Channel.timer ch = false)
  ∧ (∀ e, encoder_of w = Some e → is_Some (adapter_of w) →
       (sendNow name payload w).1 = Return (this w')
       ∧ trace w' = trace w
           ++ EvSend (options.adapter (Client.options (this w))) (Client.socket (this w))
                (encoders.encode e (name, [payload]))
              :: (if options.stats (Client.options (this w))
                  then [EvStats 1 (length (encoders.encode e (name, [payload])))]
                  else [])).
Proof.
  intros Hg. cbn zeta. split; [|split; [|split]].
  - intros k. unfold pending, armed. rewrite channels_sendNow by done.
    split; [apply pending_subscribed|apply armed_subscribed].
  - intros k ch Hk. rewrite channels_sendNow by done. by apply persist_created.
  - intros Hp Hn. rewrite channels_sendNow by done. unfold subscribed, created, assigned.
    rewrite Hn. cbn [set_allocated this Client.channels]. rewrite Hn.
    rewrite decide_False by done. simpl. rewrite lookup_insert_eq. by eexists.
  - intros e He [a Ha]. rewrite sendNow_eq, decide_True by done.
    rewrite encoder_of_subscribed, adapter_of_subscribed, He, Ha.
    split; [done|]. cbn [snd].
    rewrite emitted_subscribed.
    change (trace (set_trace ?t _)) with t.
    by rewrite trace_subscribed.
Qed.

(** With [1; 2] pending on "c", an immediate 3 goes out alone and [1; 2]
    still waits. *)
Lemma sendNow_leaves_queues_run :
  pending "c" (sendNow (JStr "c") (JInt 3)
                 (run [Send (JStr "c") (JInt 1); Send (JStr "c") (JInt 2)] Sample.fresh)).2
  = [JInt 1; JInt 2]
  ∧ trace (sendNow (JStr "c") (JInt 3)
             (run [Send (JStr "c") (JInt 1); Send (JStr "c") (JInt 2)] Sample.fresh)).2
    = [EvCreateSocket "tcp" None;
       EvSend "tcp" (Some 40%nat) (encoders.encode Sample.json (JStr "c", [JInt 3]))].
Proof.
  assert (Hg : guarded (run [Send (JStr "c") (JInt 1); Send (JStr "c") (JInt 2)]
                          Sample.fresh)) by (vm_compute; reflexivity).
  pose proof (sendNow_leaves_queues (JStr "c") (JInt 3)
    (run [Send (JStr "c") (JInt 1); Send (JStr "c") (JInt 2)] Sample.fresh) Hg) as H.
  cbn zeta in H. destruct H as (Hq & _ & _ & He).
  split.
  - destruct (Hq "c") as [-> _]. vm_compute. reflexivity.
  - destruct (He Sample.json) as [_ ->]; vm_compute; eauto.
Defined.

(** ** destroy resets the own channels *)

(** X20.  destroy throws before doing anything when the adapter name does
    not resolve.  Once the name resolves, destroy calls the adapter's
    disconnect and clears the socket, and leaves the timer of every own
    channel of the table idle with its queue as it was, so that the expiry of
    no such timer does anything; it returns when no Channel is the prototype
    of the table. *)
Theorem destroy_resets_own w :
  (adapter_of w = None → destroy w = (Throw TypeError, w))
  ∧ (is_Some (adapter_of w) →
       let w' := (destroy w).2 in
       (Client.proto (this w) = None → (destroy w).1 = Return tt)
       ∧ Client.socket (this w') = None
       ∧ trace w' = trace w ++ [EvDisconnect (options.adapter (Client.options (this w)))
                                  (Client.socket (this w))]
       ∧ (∀ key, armed key w' = false ∧ pending key w' = pending key w)
       ∧ (∀ key ch, Client.channels (this w') !! key = Some ch → Channel.timer ch = false)
       ∧ (∀ key, bundler_expiry key w' = (Return tt, w'))).
Proof.
  split; [intros Ha; by rewrite destroy_eq, Ha|].
  intros [a Ha]. cbn zeta. rewrite destroy_eq, Ha. cbn [fst snd].
  assert (Hl : ∀ key ch,
    Client.channels (this (destroyed w)) !! key = Some ch → Channel.timer ch = false).
  { intros key ch. unfold destroyed. simpl. rewrite lookup_fmap.
    destruct (Client.channels (this w) !! key); [|done]. by intros [= <-]. }
  split.
  { intros Hp. unfold inherited. by rewrite Hp. }
  split; [done|]. split; [done|]. split; [|split; [exact Hl|]].
  - intros key. unfold armed, pending, destroyed. simpl. rewrite lookup_fmap.
    by destruct (Client.channels (this w) !! key).
  - intros key. rewrite bundler_expiry_eq.
    destruct (Client.channels _ !! key) as [ch|] eqn:E; [|done].
    by rewrite (Hl key ch E).
Qed.

Lemma destroy_resets_own_run :
  armed "c" (run [Send (JStr "c") (JInt 1)] Sample.fresh) = true
  ∧ (destroy (run [Send (JStr "c") (JInt 1)] Sample.fresh)).1 = Return tt
  ∧ armed "c" (destroy (run [Send (JStr "c") (JInt 1)] Sample.fresh)).2 = false
  ∧ pending "c" (destroy (run [Send (JStr "c") (JInt 1)] Sample.fresh)).2 = [JInt 1].
Proof.
  split; [vm_compute; reflexivity|].
  destruct (destroy_resets_own (run [Send (JStr "c") (JInt 1)] Sample.fresh)) as [_ H].
  cbn zeta in H. destruct H as (Hr & _ & _ & Hk & _); [vm_compute; eexists; reflexivity|].
  split; [apply Hr; vm_compute; reflexivity|].
  destruct (Hk "c") as [-> ->]. split; vm_compute; reflexivity.
Defined.

(** ** Names are their strings *)

(** X21.  Two names with one string are one name to the client: subscribe,
    unsubscribe, send and sendOnce do the same whichever of the two they are
    given, in every world.  On a client that has no channel named
    hasOwnProperty, and when the string is neither [hasOwnProperty] nor
    [__proto__], a packet sent under one name queues behind a packet sent
    under the other, a sendOnce under one replaces what was sent under the
    other, an unsubscribe under one takes off the handler subscribed under
    the other, and sendNow under either reaches the same channel, while the
    frame it sends carries the name as it was given. *)
Theorem names_coerced n1 n2 :
  toString n1 = toString n2 →
  (∀ handler opts w, subscribe n1 handler opts w = subscribe n2 handler opts w)
  ∧ (∀ handler w, unsubscribe n1 handler w = unsubscribe n2 handler w)
  ∧ (∀ payload w, send n1 payload w = send n2 payload w)
  ∧ (∀ payload w, sendOnce n1 payload w = sendOnce n2 payload w)
  ∧ (∀ w, guarded w → ordinary (toString n1) →
       (∀ p q, pending (toString n1) (send n2 q (send n1 p w).2).2
               = pending (toString n1) w ++ [p; q])
       ∧ (∀ p q, pending (toString n1) (sendOnce n2 q (send n1 p w).2).2 = [q])
       ∧ (∀ h, Client.channels (this w) !! toString n1 = None →
            Channel.handlers <$>
              Client.channels
                (this (unsubscribe n2 h (subscribe n1 (Some h) ∅ w).2).2) !! toString n1
            = Some [])
       ∧ (∀ p, Client.channels (this (sendNow n1 p w).2)
               = Client.channels (this (sendNow n2 p w).2))
       ∧ (∀ p e, encoder_of w = Some e → is_Some (adapter_of w) →
            trace (sendNow n1 p w).2
            = trace w ++ emitted e n1 [p] w)).
Proof.
  intros Hs.
  assert (Hsub : ∀ handler opts w,
    subscribed n1 handler opts w = subscribed n2 handler opts w).
  { intros. unfold subscribed. by rewrite Hs. }
  split; [intros; by rewrite !subscribe_eq, Hsub|].
  split; [intros; by rewrite !unsubscribe_eq, Hs|].
  split; [intros; by rewrite !send_eq, Hs, Hsub|].
  split; [intros; by rewrite !sendOnce_eq, Hs, Hsub|].
  intros w Hg [Hp Hh].
  assert (Hg1 : ∀ p, guarded (send n1 p w).2).
  { intros p. rewrite send_eq, decide_True by done. cbn [snd].
    by apply guarded_mutated, guarded_subscribed. }
  split; [|split; [|split; [|split]]].
  - intros p q. rewrite (send_eq n2), decide_True by done. cbn [snd].
    rewrite pending_sent, decide_True by (by rewrite <- Hs).
    rewrite send_eq, decide_True by done. cbn [snd].
    rewrite pending_sent, decide_True by done. by rewrite <- app_assoc.
  - intros p q. rewrite sendOnce_eq, decide_True by done. cbn [snd].
    by rewrite pending_sentOnce, decide_True by (by rewrite <- Hs).
  - intros h Hn. rewrite subscribe_eq, decide_True by done. cbn [snd].
    rewrite unsubscribe_eq, decide_True by (by apply guarded_subscribed). cbn [snd].
    rewrite <- Hs, updated_lookup. unfold subscribed.
    rewrite mutated_lookup. unfold created, assigned. rewrite Hn.
    cbn [set_allocated this Client.channels]. rewrite Hn, decide_False by done.
    simpl. rewrite lookup_insert_eq. simpl. unfold Channel.removeHandler. simpl.
    rewrite filter_cons_False by (intros Hf; by apply Hf). done.
  - intros p. by rewrite !channels_sendNow, Hsub.
  - intros p e He [a Ha]. rewrite sendNow_eq, decide_True by done.
    rewrite encoder_of_subscribed, adapter_of_subscribed, He, Ha. cbn [snd].
    change (trace (set_trace ?t _)) with t.
    by rewrite trace_subscribed, emitted_subscribed.
Qed.

Lemma names_coerced_run :
  pending "1" (send (JStr "1") (JStr "b") (send (JInt 1) (JStr "a") Sample.fresh).2).2
  = [JStr "a"; JStr "b"]
  ∧ subscribe (JInt 1) (Some 9%nat) ∅ Sample.fresh
    = subscribe (JStr "1") (Some 9%nat) ∅ Sample.fresh.
Proof.
  destruct (names_coerced (JInt 1) (JStr "1")) as (Hsub & _ & _ & _ & H);
    [vm_compute; reflexivity|].
  split; [|apply Hsub].
  destruct (H Sample.fresh) as (Hq & _); [vm_compute; reflexivity|split; discriminate|].
  change "1" with (toString (JInt 1)) at 1. rewrite Hq. vm_compute. reflexivity.
Defined.
(** ** The application object *)

Lemma terminate_eq k :
  Kalm.terminate k =
  match Kalm.components k !! "console" with
  | None => (Throw TypeError, k)
  | Some _ =>
      (Return tt,
       Kalm.log
         (Kalm.Warn "Shutting down..." :: Kalm.Shutdown
          :: match Kalm.components k !! "net" ≫= Kalm.adapters with
             | Some keys => (Kalm.Stop <$> keys) ++ [Kalm.ExitAfter keys]
             | None => [Kalm.Exit]
             end) k)
  end.
Proof.
  unfold Kalm.terminate, Kalm.log. destruct (Kalm.components k !! "console"); [|done].
  simpl. destruct (Kalm.components k !! "net") as [net|]; simpl.
  - destruct (Kalm.adapters net); simpl; by rewrite <- app_assoc.
  - by rewrite <- app_assoc.
Qed.

(** X15.  _interrupt tests for the console component before it reports, but
    terminate, which it then calls, does not: without a console component
    the error is written to the global console and terminate throws a
    TypeError, so that no shutdown signal is sent, no adapter is stopped and
    the process is not told to exit.  With a console component, _interrupt
    reports on it, sends the shutdown signal once, before any adapter is
    stopped, and tells the process to exit: at once when there is no net
    component or it has no adapters, after the adapters' stop otherwise. *)
Theorem interrupt_needs_console err component k :
  (Kalm.components k !! "console" = None →
     Kalm._interrupt err component k
     = (Throw TypeError, Kalm.log (Kalm.ConsoleError <$> Kalm.report err component) k)
     ∧ (¬ Kalm.exits k →
        ¬ Kalm.exits (Kalm._interrupt err component k).2))
  ∧ (is_Some (Kalm.components k !! "console") →
     Kalm._interrupt err component k
     = (Return tt,
        Kalm.log
          ((Kalm.Error <$> Kalm.report err component)
           ++ Kalm.Warn "Shutting down..." :: Kalm.Shutdown
              :: match Kalm.components k !! "net" ≫= Kalm.adapters with
                 | Some keys => (Kalm.Stop <$> keys) ++ [Kalm.ExitAfter keys]
                 | None => [Kalm.Exit]
                 end) k)
     ∧ Kalm.exits (Kalm._interrupt err component k).2)
  ∧ (∀ pkg, is_Some (Kalm.components (Kalm.registerComponent "console" pkg k) !! "console")).
Proof.
  split; [|split].
  - intros Hc. unfold Kalm._interrupt. rewrite Hc, terminate_eq. cbn [Kalm.log Kalm.components].
    rewrite Hc. split; [done|]. cbn [snd Kalm.log Kalm.effects].
    intros Hk [Hx|[keys Hx]]; apply Hk.
    + left. apply elem_of_app in Hx as [Hx|Hx]; [done|].
      apply list_elem_of_fmap in Hx as (? & [=] & _).
    + right. exists keys. apply elem_of_app in Hx as [Hx|Hx]; [done|].
      apply list_elem_of_fmap in Hx as (? & [=] & _).
  - intros [c Hc]. unfold Kalm._interrupt. rewrite Hc, terminate_eq.
    cbn [Kalm.log Kalm.components]. rewrite Hc.
    assert (Heq : ∀ es es', Kalm.log es' (Kalm.log es k) = Kalm.log (es ++ es') k).
    { intros. unfold Kalm.log. simpl. by rewrite <- app_assoc. }
    rewrite Heq. split; [done|]. cbn [snd Kalm.log Kalm.effects]. unfold Kalm.exits.
    destruct (Kalm.components k !! "net" ≫= Kalm.adapters) as [keys|].
    + right. exists keys. unfold Kalm.log. cbn [Kalm.effects].
      rewrite !elem_of_app. right. right.
      rewrite !elem_of_cons, elem_of_app, list_elem_of_singleton. eauto.
    + left. unfold Kalm.log. cbn [Kalm.effects]. rewrite !elem_of_app. right. right.
      rewrite !elem_of_cons. eauto.
  - intros pkg. unfold Kalm.registerComponent. simpl. rewrite lookup_insert_eq. eauto.
Qed.

(** The utils component failed to load and there is no console component:
    two lines on the global console and a TypeError; with the console and a
    net component with two adapters registered, both are stopped after the
    shutdown signal. *)
Lemma interrupt_needs_console_run :
  Kalm._interrupt "boom" (Some "utils") (Kalm.mk ∅ [])
  = (Throw TypeError,
     Kalm.mk ∅ (Kalm.ConsoleError <$> Kalm.report "boom" (Some "utils")))
  ∧ length (Kalm.report "boom" (Some "utils")) = 2%nat
  ∧ Kalm.effects
      (Kalm._interrupt "boom" None
         (Kalm.registerComponent "net" (Kalm.mkComponent (Some ["ipc"; "tcp"]))
            (Kalm.registerComponent "console" (Kalm.mkComponent None) (Kalm.mk ∅ [])))).2
    = [Kalm.Error "boom"; Kalm.Warn "Shutting down..."; Kalm.Shutdown;
       Kalm.Stop "ipc"; Kalm.Stop "tcp"; Kalm.ExitAfter ["ipc"; "tcp"]].
Proof.
  split; [|split; [reflexivity|]].
  - destruct (interrupt_needs_console "boom" (Some "utils") (Kalm.mk ∅ [])) as [H _].
    destruct H as [-> _]; [done|]. reflexivity.
  - destruct (interrupt_needs_console "boom" None
      (Kalm.registerComponent "net" (Kalm.mkComponent (Some ["ipc"; "tcp"]))
         (Kalm.registerComponent "console" (Kalm.mkComponent None) (Kalm.mk ∅ []))))
      as (_ & H & _).
    destruct H as [-> _]; [vm_compute; eexists; reflexivity|]. vm_compute. reflexivity.
Defined.
